(** * The direct keymanager (validator/keymanager/v2/direct/direct.go)

    A shallow embedding of the EIP-2335 direct keymanager: the secret-key
    cache and its initialization, signing, public-key enumeration, account
    creation and bulk import of keystores, together with the properties of
    the specification that concern them. *)

From Stdlib Require Import Strings.Byte Strings.Ascii.
From stdpp Require Import gmap strings list fin_maps pretty.

Local Open Scope string_scope.
Local Open Scope list_scope.
Local Open Scope nat_scope.

(** ** Bytes, results and error messages *)

(** A Go [[]byte]. *)
Abbreviation bytes := (list byte).

#[global] Instance byte_eq_dec : EqDecision byte := Byte.byte_eq_dec.
#[global] Instance byte_countable : Countable byte :=
  inj_countable Byte.to_N Byte.of_N Byte.of_to_N.

(** A Go [(T, error)] pair: either the value, or the text of the error
    ([err.Error()]).  The code inspects errors only through their text. *)
Inductive result (A : Type) : Type :=
| Ok (a : A)
| Err (e : string).
Arguments Ok {A} a.
Arguments Err {A} e.

#[global] Instance result_ret : MRet result := fun A a => Ok a.
#[global] Instance result_bind : MBind result := fun A B f r =>
  match r with
  | Ok a => f a
  | Err e => Err e
  end.

Definition is_Ok {A} (r : result A) : bool :=
  match r with Ok _ => true | Err _ => false end.

(** [errors.Wrap(err, msg)]: the message, a colon, the cause. *)
Definition Wrap {A} (r : result A) (msg : string) : result A :=
  match r with
  | Ok a => Ok a
  | Err e => Err (msg +:+ ": " +:+ e)
  end.

(** [strings.Contains(s, substr)]. *)
Fixpoint strings_Contains (s substr : string) : bool :=
  String.prefix substr s ||
  match s with
  | EmptyString => false
  | String _ s' => strings_Contains s' substr
  end.

(** [string(b)] and [[]byte(s)]: the same bytes. *)
Definition string_of_bytes (b : bytes) : string := Stdlib.Strings.String.string_of_list_byte b.
Definition bytes_of_string (s : string) : bytes := Stdlib.Strings.String.list_byte_of_string s.

(** ** Constants of the package *)

Definition KeystoreFileName : string := "keystore-*.json".
Definition PasswordFileSuffix : string := ".pass".
Definition DepositDataFileName : string := "deposit_data.ssz".
Definition accountsPath : string := "accounts".
Definition eipVersion : string := "EIP-2335".

(** Decimal rendering of a timestamp, for the [%d] of the file name formats. *)
Definition fmt_d (n : Z) : string := pretty n.

(** [fmt.Sprintf(KeystoreFileNameFormat, t)] *)
Definition KeystoreFileNameFormat (t : Z) : string :=
  "keystore-" +:+ fmt_d t +:+ ".json".
(** [fmt.Sprintf(accountsKeystoreFileName, t)] *)
Definition accountsKeystoreFileName (t : Z) : string :=
  "all-accounts.keystore-" +:+ fmt_d t +:+ ".json".

(** An invalid-checksum failure of the decryptor is how the code recognises a
    wrong password: [err != nil && strings.Contains(err.Error(), "invalid checksum")]. *)
Definition invalid_checksum (e : string) : bool :=
  strings_Contains e "invalid checksum".

(** Modelled from the spec: [bytesutil.ToBytes48] is outside this file; the
    spec fixes the cache key as the 48-byte public key.  The helper copies
    its argument into a [[48]byte]: the first 48 bytes, padded with zeros. *)
Definition ToBytes48 (x : bytes) : bytes :=
  take 48 (x ++ replicate 48 x00).

(** ** Collaborators of the keymanager *)

(** Modelled from the spec: [v2keymanager.Keystore] is declared outside this
    file; the spec gives the keystore record as
    [{ crypto, uuid, pubkey: hex string, version, name }]. *)
Record Keystore (CryptoFields : Type) : Type := mkKeystore {
  Crypto : CryptoFields;
  ID : string;
  Pubkey : string;
  Version : N;
  Name : string
}.
Arguments mkKeystore {CryptoFields}.
Arguments Crypto {CryptoFields} k.
Arguments ID {CryptoFields} k.
Arguments Pubkey {CryptoFields} k.
Arguments Version {CryptoFields} k.
Arguments Name {CryptoFields} k.

(** [AccountStore]: two index-correlated sequences.  A nil element of a Go
    [[][]byte] is the empty list here. *)
Record AccountStore : Type := mkAccountStore {
  PrivateKeys : list bytes;
  PublicKeys : list bytes
}.

(** The EIP-2335 encryptor ([keystorev4.New()]).  The salt and nonce that
    [Encrypt] draws are fixed by the instance. *)
Class Encryptor (CryptoFields : Type) : Type := {
  Decrypt : CryptoFields -> string -> result bytes;
  Encrypt : bytes -> string -> result CryptoFields;
  encryptor_Version : N;
  encryptor_Name : string
}.

(** The BLS library ([shared/bls]): what the keymanager uses of a secret key. *)
Class BLS (SecretKey : Type) : Type := {
  SecretKeyFromBytes : bytes -> result SecretKey;
  (** [sk.Marshal()] *)
  Marshal : SecretKey -> bytes;
  (** [sk.PublicKey().Marshal()] *)
  PublicKey_Marshal : SecretKey -> bytes;
  (** [sk.Sign(msg)], marshalled *)
  SecretKey_Sign : SecretKey -> bytes -> bytes
}.

(** [encoding/json] on the two records, [encoding/hex], [petnames],
    [depositutil] and [ssz]. *)
Class Codec (CryptoFields SecretKey : Type) : Type := {
  json_Unmarshal_Keystore : bytes -> result (Keystore CryptoFields);
  json_MarshalIndent_Keystore : Keystore CryptoFields -> result bytes;
  json_MarshalIndent_AccountStore : AccountStore -> result bytes;
  json_Unmarshal_AccountStore : bytes -> result AccountStore;
  hex_DecodeString : string -> result bytes;
  (** [fmt.Sprintf("%x", b)] *)
  hex_EncodeToString : bytes -> string;
  (** [petnames.DeterministicName(seed, separator)] *)
  DeterministicName : bytes -> string -> string;
  (** the deposit data of [depositutil.GenerateDepositTransaction] *)
  GenerateDepositTransaction : SecretKey -> SecretKey -> result bytes;
  ssz_Marshal : bytes -> result bytes
}.

(** *** Storage *)

(** [filepath.Match] for the patterns of this package: [*] matches any run of
    characters, every other character matches itself. *)
Fixpoint glob (pattern name : string) : bool :=
  match pattern with
  | EmptyString => bool_decide (name = EmptyString)
  | String p pattern' =>
      if bool_decide (p = "*"%char) then
        (fix star (name : string) : bool :=
           glob pattern' name ||
           match name with
           | EmptyString => false
           | String _ name' => star name'
           end) name
      else
        match name with
        | EmptyString => false
        | String c name' => bool_decide (p = c) && glob pattern' name'
        end
  end.

Arguments glob : simpl never.

(** [filepath.Join(dir, name)] *)
Definition filepath_Join (dir name : string) : string := dir +:+ "/" +:+ name.

(** Modelled from the spec: the wallet ([iface.Wallet]) is implemented outside
    this file.  The spec lists its interface: the account directories, files
    read by directory and file-name pattern and written by directory and
    file name, password artifacts read and written by file name, the
    accounts root path and the wallet's own password.  [ioFault] is the set
    of paths on which the disk refuses an operation. *)
Record Wallet : Type := mkWallet {
  AccountsDir : string;
  Password : string;
  dirs : list string;
  passwordFiles : gmap string string;
  files : list (string * string * bytes);
  ioFault : string -> bool
}.

Definition ListDirs (w : Wallet) : result (list string) :=
  if ioFault w (AccountsDir w) then Err "could not read accounts directory"
  else Ok (dirs w).

Definition ReadPasswordFromDisk (w : Wallet) (passwordFileName : string) : result string :=
  if ioFault w passwordFileName then Err ("could not read " +:+ passwordFileName)
  else match passwordFiles w !! passwordFileName with
       | Some password => Ok password
       | None => Err ("no password file " +:+ passwordFileName)
       end.

Definition WritePasswordToDisk (w : Wallet) (passwordFileName password : string) : result Wallet :=
  if ioFault w passwordFileName then Err ("could not write " +:+ passwordFileName)
  else Ok (mkWallet (AccountsDir w) (Password w) (dirs w)
             (<[passwordFileName := password]> (passwordFiles w)) (files w) (ioFault w)).

Definition file_matches (accountName pattern : string) (f : string * string * bytes) : bool :=
  bool_decide (f.1.1 = accountName) && glob pattern f.1.2.

Definition ReadFileAtPath (w : Wallet) (accountName fileName : string) : result bytes :=
  if ioFault w (filepath_Join accountName fileName) then
    Err ("could not read " +:+ filepath_Join accountName fileName)
  else match List.find (file_matches accountName fileName) (files w) with
       | Some f => Ok f.2
       | None => Err ("no files found in " +:+ filepath_Join accountName fileName)
       end.

Definition WriteFileAtPath (w : Wallet) (accountName fileName : string) (data : bytes) : result Wallet :=
  if ioFault w (filepath_Join accountName fileName) then
    Err ("could not write " +:+ filepath_Join accountName fileName)
  else Ok (mkWallet (AccountsDir w) (Password w)
             (if bool_decide (accountName ∈ dirs w) then dirs w else dirs w ++ [accountName])
             (passwordFiles w)
             ((accountName, fileName, data) :: files w)
             (ioFault w)).

(** [hasDir]: [os.Stat] on a path under the accounts directory.  On this
    storage the call either finds the directory or reports that it does not
    exist. *)
Definition hasDir (w : Wallet) (dirPath : string) : result bool :=
  Ok (bool_decide (dirPath ∈ filepath_Join (AccountsDir w) <$> dirs w)).

(** *** Console *)

(** Modelled from the spec: [promptutil.PasswordPrompt] is outside this file;
    the spec makes the prompt a password provider that can be given canned
    answers and that may fail (for instance at the end of input).  Every
    prompt takes the next answer of the script and records its text. *)
Record Console : Type := mkConsole {
  answers : list (result string);
  prompts : list string
}.

Definition PasswordPrompt (promptText : string) (c : Console) : result string * Console :=
  match answers c with
  | [] => (Err "EOF", mkConsole [] (prompts c ++ [promptText]))
  | a :: rest => (a, mkConsole rest (prompts c ++ [promptText]))
  end.

(** *** Host: files outside the wallet, randomness, clock, progress bar *)

Record Host : Type := mkHost {
  ioutil_ReadFile : string -> result bytes;
  uuid_NewRandom : result string;
  (** [time.Now().Unix()], [roughtime.Now().Unix()] *)
  time_Now : Z;
  (** the outcome of [bar.Add(1)] for the record at an index *)
  bar_Add : nat -> result unit
}.

(** The order in which [for k := range m] visits a map: some enumeration of
    its entries, chosen by the runtime. *)
Class MapRange (V : Type) : Type := {
  map_range : gmap bytes V -> list (bytes * V);
  map_range_perm : forall m, map_range m ≡ₚ map_to_list m
}.

(** ** The keymanager *)

Record Config : Type := mkConfig {
  EIPVersion : string;
  AccountPasswordsDirectory : string
}.

Record SignRequest : Type := mkSignRequest {
  (** [nil] is [None] *)
  PublicKey : option bytes;
  SigningRoot : bytes
}.

Record CliContext : Type := mkCliContext {
  (** [cliCtx.IsSet(flags.AccountPasswordFileFlag.Name)] and its value *)
  AccountPasswordFile : option string
}.

Section Direct.
Context {CryptoFields SecretKey : Type}.
Context `{!Encryptor CryptoFields, !BLS SecretKey, !Codec CryptoFields SecretKey}.
Context `{!MapRange SecretKey}.

(** The lock of the Go structure orders concurrent callers; the operations
    below are the sequential steps it protects.  [keysCache] is allocated by
    [NewKeymanager] and is never nil. *)
Record Keymanager : Type := mkKeymanager {
  wallet : Wallet;
  cfg : Config;
  keysCache : gmap bytes SecretKey
}.

Definition ValidatingAccountNames (dr : Keymanager) : result (list string) :=
  ListDirs (wallet dr).

(** *** initializeSecretKeysCache *)

(** One account of the worker's loop: password, keystore file, decryption,
    secret key. *)
Definition unlockAccount (w : Wallet) (name : string) : result SecretKey :=
  password ← Wrap (ReadPasswordFromDisk w (name +:+ PasswordFileSuffix))
                  ("could not read password for account " +:+ name);
  encoded ← Wrap (ReadFileAtPath w name KeystoreFileName)
                 ("could not read keystore file for account " +:+ name);
  keystoreFile ← Wrap (json_Unmarshal_Keystore encoded)
                      ("could not decode keystore file for account " +:+ name);
  rawSigningKey ← Wrap (Decrypt (Crypto keystoreFile) password)
                       ("could not decrypt signing key for account " +:+ name);
  Wrap (SecretKeyFromBytes rawSigningKey)
       ("could not determine signing key for account " +:+ name).

(** The loop [for i := 0; i < n; i++ { name := accountNames[i]; ... }] of the
    function handed to [Scatter], from index [i] with [n] rounds to go. *)
Fixpoint scatterLoop (w : Wallet) (accountNames : list string) (i n : nat)
    (cache : gmap bytes SecretKey) : gmap bytes SecretKey * result unit :=
  match n with
  | O => (cache, Ok tt)
  | S n' =>
      match accountNames !! i with
      | None => (cache, Err "panic: index out of range")
      | Some name =>
          match unlockAccount w name with
          | Err e => (cache, Err e)
          | Ok validatorSigningKey =>
              scatterLoop w accountNames (S i) n'
                (<[ToBytes48 (PublicKey_Marshal validatorSigningKey) := validatorSigningKey]> cache)
          end
      end
  end.

(** The function handed to [Scatter]: its bound is the length of
    [accountNames[offset:offset+entries]], its index reads [accountNames[i]]. *)
Definition scatterFunc (w : Wallet) (accountNames : list string) (offset entries : nat)
    (cache : gmap bytes SecretKey) : gmap bytes SecretKey * result unit :=
  if bool_decide (offset + entries ≤ List.length accountNames)%nat then
    scatterLoop w accountNames 0 (length (take entries (drop offset accountNames))) cache
  else (cache, Err "panic: slice bounds out of range").

(** Modelled from the spec: [mputil.Scatter] is outside this file.  The spec
    has it partition the input into contiguous shards, bounded by the
    available parallelism, run the function on every shard and surface the
    first failure, the other shards still running to their end.  The shard
    size that the library derives from the number of processors is the
    parameter [chunkSize]; the shards run here in the order of their
    offsets. *)
Definition scatter_shards (chunkSize inputLen : nat) : list (nat * nat) :=
  (fun worker => (worker * chunkSize, Nat.min chunkSize (inputLen - worker * chunkSize)))
    <$> seq 0 (if Nat.eqb (inputLen mod chunkSize) 0 then inputLen / chunkSize
               else S (inputLen / chunkSize)).

Fixpoint scatter_run {S : Type} (shards : list (nat * nat))
    (sFunc : nat -> nat -> S -> S * result unit) (s : S) : S * result unit :=
  match shards with
  | [] => (s, Ok tt)
  | (offset, entries) :: rest =>
      let '(s1, r1) := sFunc offset entries s in
      let '(s2, r2) := scatter_run rest sFunc s1 in
      (s2, match r1 with Err e => Err e | Ok _ => r2 end)
  end.

Definition Scatter {S : Type} (chunkSize inputLen : nat)
    (sFunc : nat -> nat -> S -> S * result unit) (s : S) : S * result unit :=
  scatter_run (scatter_shards chunkSize inputLen) sFunc s.

Definition initializeSecretKeysCache (chunkSize : nat) (dr : Keymanager)
    : Keymanager * result unit :=
  match ValidatingAccountNames dr with
  | Err e => (dr, Err e)
  | Ok accountNames =>
      if Nat.eqb (length accountNames) 0 then (dr, Ok tt)
      else
        let '(cache, r) :=
          Scatter chunkSize (length accountNames)
            (scatterFunc (wallet dr) accountNames) (keysCache dr) in
        (mkKeymanager (wallet dr) (cfg dr) cache, r)
  end.

Definition NewKeymanager (chunkSize : nat) (wallet : Wallet) (cfg : Config)
    : result Keymanager :=
  let k := mkKeymanager wallet cfg ∅ in
  let '(k', r) := initializeSecretKeysCache chunkSize k in
  match r with
  | Err e => Err ("could not initialize keys cache: " +:+ e)
  | Ok _ => Ok k'
  end.

(** *** Sign *)

Definition Sign (dr : Keymanager) (req : SignRequest) : result bytes :=
  match PublicKey req with
  | None => Err "nil public key in request"
  | Some rawPubKey =>
      match keysCache dr !! ToBytes48 rawPubKey with
      | None => Err "no signing key found in keys cache"
      | Some secretKey => Ok (SecretKey_Sign secretKey (SigningRoot req))
      end
  end.

(** *** FetchValidatingPublicKeys *)

(** [for k := range dr.keysCache { publicKeys[i] = k; i++ }] *)
Fixpoint fetchFromCache (entries : list (bytes * SecretKey)) (i : nat)
    (publicKeys : list bytes) : list bytes :=
  match entries with
  | [] => publicKeys
  | kv :: rest => fetchFromCache rest (S i) (<[i := kv.1]> publicKeys)
  end.

(** [for i, name := range accountNames { ...; publicKeys[i] = ... }] *)
Fixpoint fetchFromStorage (w : Wallet) (accountNames : list string) (i : nat)
    (publicKeys : list bytes) : result (list bytes) :=
  match accountNames with
  | [] => Ok publicKeys
  | name :: rest =>
      encoded ← Wrap (ReadFileAtPath w name KeystoreFileName)
                     ("could not read keystore file for account " +:+ name);
      keystoreFile ← Wrap (json_Unmarshal_Keystore encoded)
                          ("could not decode keystore json for account: " +:+ name);
      pubKeyBytes ← Wrap (hex_DecodeString (Pubkey keystoreFile))
                         ("could not decode pubkey bytes: 0x" +:+
                          hex_EncodeToString (bytes_of_string (Pubkey keystoreFile)));
      fetchFromStorage w rest (S i) (<[i := ToBytes48 pubKeyBytes]> publicKeys)
  end.

Definition FetchValidatingPublicKeys (dr : Keymanager) : result (list bytes) :=
  accountNames ← ValidatingAccountNames dr;
  let publicKeys := replicate (length accountNames) (replicate 48 x00) in
  if bool_decide (size (keysCache dr) = length accountNames) then
    Ok (fetchFromCache (map_range (keysCache dr)) 0 publicKeys)
  else fetchFromStorage (wallet dr) accountNames 0 publicKeys.

(** *** CreateAccount *)

(** [generateAccountName].  The Go loop has no bound; [fuel] counts the rounds
    that are run, and [None] is a loop that is still going when they are
    spent.  [accountExists] is never assigned, so the loop is left only by
    the [break] or by the error return. *)
Fixpoint generateAccountName (fuel : nat) (w : Wallet) (pubKey : bytes)
    : option (result string) :=
  match fuel with
  | O => None
  | S fuel' =>
      let accountName := DeterministicName pubKey "-" in
      match hasDir w (filepath_Join (AccountsDir w) accountName) with
      | Err e =>
          Some (Err ("could not check if account exists in dir: " +:+ AccountsDir w
                     +:+ ": " +:+ e))
      | Ok exists_ =>
          if negb exists_ then Some (Ok accountName)
          else generateAccountName fuel' w pubKey
      end
  end.

Definition generateKeystoreFile (h : Host) (validatingKey : SecretKey) (password : string)
    : result bytes :=
  cryptoFields ← Wrap (Encrypt (Marshal validatingKey) password)
                      "could not encrypt validating key into keystore";
  id ← uuid_NewRandom h;
  json_MarshalIndent_Keystore
    (mkKeystore cryptoFields id (hex_EncodeToString (PublicKey_Marshal validatingKey))
       encryptor_Version encryptor_Name).

(** A write that storage has accepted, with the storage it leaves. *)
Inductive Write : Type :=
| PasswordWritten (passwordFileName : string)
| FileWritten (accountName fileName : string).

(** [CreateAccount], with the two keys that [bls.RandKey] draws as arguments.
    The result is [None] when the name loop does not end within [fuel]; the
    second component lists the writes the call has made, in order, each with
    the state of storage after it. *)
Definition CreateAccount (fuel : nat) (h : Host) (dr : Keymanager)
    (validatingKey withdrawalKey : SecretKey) (password : string)
    : option (result string) * list (Write * Wallet) :=
  match generateAccountName fuel (wallet dr) (PublicKey_Marshal validatingKey) with
  | None => (None, [])
  | Some (Err e) => (Some (Err ("could not generate unique account name: " +:+ e)), [])
  | Some (Ok accountName) =>
  match WritePasswordToDisk (wallet dr) (accountName +:+ ".pass") password with
  | Err e => (Some (Err ("could not write password to disk: " +:+ e)), [])
  | Ok w1 =>
  let t1 := [(PasswordWritten (accountName +:+ ".pass"), w1)] in
  match generateKeystoreFile h validatingKey password with
  | Err e => (Some (Err e), t1)
  | Ok encoded =>
  match GenerateDepositTransaction validatingKey withdrawalKey with
  | Err e => (Some (Err ("could not generate deposit transaction data: " +:+ e)), t1)
  | Ok depositData =>
  match ssz_Marshal depositData with
  | Err e => (Some (Err ("could not marshal deposit data: " +:+ e)), t1)
  | Ok encodedDepositData =>
  match WriteFileAtPath w1 accountName DepositDataFileName encodedDepositData with
  | Err e =>
      (Some (Err ("could not write for account " +:+ accountName +:+ ": "
                  +:+ string_of_bytes encodedDepositData +:+ ": " +:+ e)), t1)
  | Ok w2 =>
  let t2 := t1 ++ [(FileWritten accountName DepositDataFileName, w2)] in
  let createdAt := time_Now h in
  match WriteFileAtPath w2 accountName (KeystoreFileNameFormat createdAt) encoded with
  | Err e =>
      (Some (Err ("could not write keystore file for account " +:+ accountName
                  +:+ ": " +:+ e)), t2)
  | Ok w3 =>
      (Some (Ok accountName),
       t2 ++ [(FileWritten accountName (KeystoreFileNameFormat createdAt), w3)])
  end end end end end end end.

(** *** ImportKeystores *)

(** [askUntilPasswordConfirms]: every round prompts once and so takes one
    answer of the script; the recursion is on the script that is left. *)
Fixpoint askUntilPasswordConfirms_loop (keystore : Keystore CryptoFields) (pubKey : string)
    (script : list (result string)) (asked : list string) : result bytes * Console :=
  let promptText := "Enter the password for pubkey " +:+ pubKey in
  match script with
  | [] => (Err "could not read account password: EOF", mkConsole [] (asked ++ [promptText]))
  | Err e :: rest =>
      (Err ("could not read account password: " +:+ e), mkConsole rest (asked ++ [promptText]))
  | Ok password :: rest =>
      match Decrypt (Crypto keystore) password with
      | Err e =>
          if invalid_checksum e then
            askUntilPasswordConfirms_loop keystore pubKey rest (asked ++ [promptText])
          else (Err e, mkConsole rest (asked ++ [promptText]))
      | Ok secretKey => (Ok secretKey, mkConsole rest (asked ++ [promptText]))
      end
  end.

Definition askUntilPasswordConfirms (keystore : Keystore CryptoFields) (pubKey : string)
    (c : Console) : result bytes * Console :=
  askUntilPasswordConfirms_loop keystore pubKey (answers c) (prompts c).

(** The loop of the branch taken when the password file flag is set, over
    the records from index [i] on. *)
Fixpoint importWithPasswordFile (password : string) (keystores : list (Keystore CryptoFields))
    (i : nat) (privKeys pubKeys : list bytes) : result (list bytes * list bytes) :=
  match keystores with
  | [] => Ok (privKeys, pubKeys)
  | k :: rest =>
      match Decrypt (Crypto k) password with
      | Err e =>
          if invalid_checksum e then
            Err ("invalid password for account with public key " +:+ Pubkey k)
          else Err e
      | Ok privKey =>
          privKeyBytes ← hex_DecodeString (string_of_bytes privKey);
          pubKeyBytes ← hex_DecodeString (Pubkey k);
          importWithPasswordFile password rest (S i)
            (<[i := privKeyBytes]> privKeys) (<[i := pubKeyBytes]> pubKeys)
      end
  end.

(** The loop of the interactive branch, over the records from index [i] on. *)
Fixpoint importWithPrompt (h : Host) (password : string)
    (keystores : list (Keystore CryptoFields)) (i : nat) (c : Console)
    (privKeys pubKeys : list bytes) : result (list bytes * list bytes) * Console :=
  match keystores with
  | [] => (Ok (privKeys, pubKeys), c)
  | k :: rest =>
      match Decrypt (Crypto k) password with
      | Err e =>
          if invalid_checksum e then
            let '(r, c1) := askUntilPasswordConfirms k (Pubkey k) c in
            match r with
            | Err e1 => (Err e1, c1)
            | Ok privKey =>
            match hex_DecodeString (string_of_bytes privKey) with
            | Err e2 => (Err e2, c1)
            | Ok privKeyBytes =>
            match hex_DecodeString (Pubkey k) with
            | Err e3 => (Err e3, c1)
            | Ok pubKeyBytes =>
            match bar_Add h i with
            | Err e4 => (Err ("could not add to progress bar: " +:+ e4), c1)
            | Ok _ =>
                importWithPrompt h password rest (S i) c1
                  (<[i := privKeyBytes]> privKeys) (<[i := pubKeyBytes]> pubKeys)
            end end end end
          else (Err ("could not decrypt keystore: " +:+ e), c)
      | Ok _ =>
          match bar_Add h i with
          | Err e4 => (Err ("could not add to progress bar: " +:+ e4), c)
          | Ok _ => importWithPrompt h password rest (S i) c privKeys pubKeys
          end
      end
  end.

Definition createAccountsKeystore (h : Host) (dr : Keymanager)
    (privateKeys publicKeys : list bytes) : result (Keystore CryptoFields) :=
  id ← uuid_NewRandom h;
  let store := mkAccountStore privateKeys publicKeys in
  encodedStore ← json_MarshalIndent_AccountStore store;
  cryptoFields ← Wrap (Encrypt encodedStore (Password (wallet dr))) "could not encrypt accounts";
  Ok (mkKeystore cryptoFields id "" encryptor_Version encryptor_Name).

(** The tail of [ImportKeystores]: the accounts go to disk in one keystore. *)
Definition writeAccountsKeystore (h : Host) (dr : Keymanager)
    (privKeys pubKeys : list bytes) : result Wallet :=
  accountsKeystore ← createAccountsKeystore h dr privKeys pubKeys;
  encodedAccounts ← json_MarshalIndent_Keystore accountsKeystore;
  let fileName := accountsKeystoreFileName (time_Now h) in
  WriteFileAtPath (wallet dr) accountsPath fileName encodedAccounts.

(** [ImportKeystores]: the error it returns, the storage and the console it
    leaves. *)
Definition ImportKeystores (h : Host) (dr : Keymanager) (cliCtx : CliContext)
    (keystores : list (Keystore CryptoFields)) (c : Console)
    : result unit * Wallet * Console :=
  let privKeys := replicate (length keystores) [] in
  let pubKeys := replicate (length keystores) [] in
  let finish (keys : list bytes * list bytes) (c : Console) :=
    match writeAccountsKeystore h dr keys.1 keys.2 with
    | Err e => (Err e, wallet dr, c)
    | Ok w' => (Ok tt, w', c)
    end in
  match AccountPasswordFile cliCtx with
  | Some passwordFilePath =>
      match ioutil_ReadFile h passwordFilePath with
      | Err e => (Err e, wallet dr, c)
      | Ok data =>
          let password := string_of_bytes data in
          match importWithPasswordFile password keystores 0 privKeys pubKeys with
          | Err e => (Err e, wallet dr, c)
          | Ok keys => finish keys c
          end
      end
  | None =>
      let '(r, c0) :=
        PasswordPrompt "Enter the password for your imported accounts" c in
      match r with
      | Err e => (Err ("could not read account password: " +:+ e), wallet dr, c0)
      | Ok password =>
          let '(r1, c1) := importWithPrompt h password keystores 0 c0 privKeys pubKeys in
          match r1 with
          | Err e => (Err e, wallet dr, c1)
          | Ok keys => finish keys c1
          end
      end
  end.

(** *** keystoreForAccount, PublicKeyForAccount, checkPasswordForAccount *)

(** [keystoreForAccount] decodes into a pointer to the record; for a file
    that holds a record, as every file that [generateKeystoreFile] writes,
    that is the record which [json_Unmarshal_Keystore] returns.  A file that
    holds the JSON [null] is outside what these three definitions say. *)

Definition keystoreForAccount (dr : Keymanager) (accountName : string)
    : result (Keystore CryptoFields) :=
  encoded ← Wrap (ReadFileAtPath (wallet dr) accountName KeystoreFileName)
                 "could not read keystore file";
  Wrap (json_Unmarshal_Keystore encoded) "could not decode json".

Definition PublicKeyForAccount (dr : Keymanager) (accountName : string) : result bytes :=
  accountKeystore ← Wrap (keystoreForAccount dr accountName) "could not get keystore";
  pubKey ← Wrap (hex_DecodeString (Pubkey accountKeystore)) "could decode pubkey string";
  Ok (ToBytes48 pubKey).

Definition checkPasswordForAccount (dr : Keymanager) (accountName password : string)
    : result unit :=
  accountKeystore ← Wrap (keystoreForAccount dr accountName) "could not get keystore";
  _ ← Wrap (Decrypt (Crypto accountKeystore) password) "could not decrypt keystore";
  Ok tt.

End Direct.

(** Storage with other password artifacts. *)
Definition with_passwords (w : Wallet) (passwords : gmap string string) : Wallet :=
  mkWallet (AccountsDir w) (Password w) (dirs w) passwords (files w) (ioFault w).

(** ** Notions of the specification *)

Section Notions.
Context {CryptoFields SecretKey : Type}.
Context `{!Encryptor CryptoFields, !BLS SecretKey, !Codec CryptoFields SecretKey}.

(** The invariant of the cache: every key is the 48-byte form of the public
    key derived from the secret key stored under it. *)
Definition cache_derived (cache : gmap bytes SecretKey) : Prop :=
  forall key sk, cache !! key = Some sk ->
    key = ToBytes48 (PublicKey_Marshal sk) /\ length key = 48.

(** The entry that the cache gets for a secret key. *)
Definition insert_key (cache : gmap bytes SecretKey) (sk : SecretKey) : gmap bytes SecretKey :=
  <[ToBytes48 (PublicKey_Marshal sk) := sk]> cache.

(** The storage that a sequence of writes leaves. *)
Definition final_wallet (w : Wallet) (writes : list (Write * Wallet)) : Wallet :=
  match last writes with
  | Some step => step.2
  | None => w
  end.

(** The public key under which the cache holds a secret key. *)
Definition cache_key (sk : SecretKey) : bytes := ToBytes48 (PublicKey_Marshal sk).

(** An account has a password artifact, a keystore record. *)
Definition has_password (w : Wallet) (name : string) : bool :=
  bool_decide (is_Some (passwordFiles w !! (name +:+ PasswordFileSuffix))).
Definition has_keystore (w : Wallet) (name : string) : bool :=
  existsb (file_matches name KeystoreFileName) (files w).

(** No account has a keystore record without its password artifact. *)
Definition password_before_keystore (w : Wallet) : Prop :=
  forall name, has_keystore w name = true -> has_password w name = true.

(** The public key that the keystore record of an account states: the
    record is read from storage and its [pubkey] field hex-decoded. *)
Definition stored_pubkey (w : Wallet) (name : string) : result bytes :=
  encoded ← Wrap (ReadFileAtPath w name KeystoreFileName)
                 ("could not read keystore file for account " +:+ name);
  keystoreFile ← Wrap (json_Unmarshal_Keystore encoded)
                      ("could not decode keystore json for account: " +:+ name);
  pubKeyBytes ← Wrap (hex_DecodeString (Pubkey keystoreFile))
                     ("could not decode pubkey bytes: 0x" +:+
                      hex_EncodeToString (bytes_of_string (Pubkey keystoreFile)));
  Ok (ToBytes48 pubKeyBytes).

Fixpoint stored_pubkeys (w : Wallet) (names : list string) : result (list bytes) :=
  match names with
  | [] => Ok []
  | name :: rest =>
      key ← stored_pubkey w name;
      keys ← stored_pubkeys w rest;
      Ok (key :: keys)
  end.

(** The error with which the shared-password import stops at a record, if
    it does. *)
Definition import_failure (password : string) (k : Keystore CryptoFields) : option string :=
  match Decrypt (Crypto k) password with
  | Err e =>
      Some (if invalid_checksum e
            then "invalid password for account with public key " +:+ Pubkey k
            else e)
  | Ok privKey =>
      match hex_DecodeString (string_of_bytes privKey), hex_DecodeString (Pubkey k) with
      | Err e, _ => Some e
      | Ok _, Err e => Some e
      | Ok _, Ok _ => None
      end
  end.

(** The pair of byte strings that a record contributes to the import. *)
Definition imported_pair (password : string) (k : Keystore CryptoFields)
    : option (bytes * bytes) :=
  match Decrypt (Crypto k) password with
  | Ok privKey =>
      match hex_DecodeString (string_of_bytes privKey), hex_DecodeString (Pubkey k) with
      | Ok privKeyBytes, Ok pubKeyBytes => Some (privKeyBytes, pubKeyBytes)
      | _, _ => None
      end
  | Err _ => None
  end.

(** An answer of the password provider that the decryptor rejects as a
    wrong password for the record. *)
Definition wrong_password (k : Keystore CryptoFields) (a : result string) : bool :=
  match a with
  | Ok password =>
      match Decrypt (Crypto k) password with
      | Err e => invalid_checksum e
      | Ok _ => false
      end
  | Err _ => false
  end.

(** The prompt for the password of one record, and the prompts that ask for
    a record of a list which the first password did not decrypt. *)
Definition prompt_for (pubKey : string) : string :=
  "Enter the password for pubkey " +:+ pubKey.




(** The combined container that storage holds after an import: the newest
    file, read back and decrypted with a password. *)
Definition read_container (w : Wallet) (password : string) : result AccountStore :=
  match files w with
  | [] => Err "no container"
  | f :: _ =>
      keystoreFile ← json_Unmarshal_Keystore f.2;
      encodedStore ← Decrypt (Crypto keystoreFile) password;
      json_Unmarshal_AccountStore encodedStore
  end.

End Notions.

(** ** A concrete instance

    A small encryptor, key scheme and codec on which the functions above
    run: they give the closed examples of this file. *)

Module Demo.

(** A keystore payload locked by a password; a record whose cipher the
    decryptor does not know fails once the checksum has passed. *)
Record DemoCrypto : Type := mkDemoCrypto {
  lock : string;
  payload : bytes;
  cipher : string
}.

#[global] Instance demo_encryptor : Encryptor DemoCrypto := {|
  Decrypt c password :=
    if bool_decide (password = lock c) then
      if bool_decide (cipher c = "aes-128-ctr") then Ok (payload c)
      else Err ("unsupported cipher " +:+ cipher c)
    else Err "invalid checksum";
  Encrypt secret password := Ok (mkDemoCrypto password secret "aes-128-ctr");
  encryptor_Version := 4%N;
  encryptor_Name := "keystore"
|}.

(** Secret keys are 32 bytes; the public key is 48 bytes that start with
    the flag byte of a compressed point. *)
#[global] Instance demo_bls : BLS bytes := {|
  SecretKeyFromBytes b :=
    if bool_decide (length b = 32) then Ok b else Err "secret key must be 32 bytes";
  Marshal sk := sk;
  PublicKey_Marshal sk := take 48 (x80 :: sk ++ replicate 48 x11);
  SecretKey_Sign sk msg := sk ++ msg
|}.

Definition hex_digit (n : N) : ascii :=
  default "0"%char (Stdlib.Strings.String.get (N.to_nat n) "0123456789abcdef").

Definition hex_value (c : ascii) : option N :=
  let n := N_of_ascii c in
  if bool_decide (48 ≤ n ≤ 57)%N then Some (n - 48)%N
  else if bool_decide (97 ≤ n ≤ 102)%N then Some (n - 87)%N
  else if bool_decide (65 ≤ n ≤ 70)%N then Some (n - 55)%N
  else None.

Fixpoint hex_encode (b : bytes) : string :=
  match b with
  | [] => EmptyString
  | x :: b' =>
      String (hex_digit (Byte.to_N x / 16)) (String (hex_digit (Byte.to_N x mod 16)) (hex_encode b'))
  end.

Fixpoint hex_decode (s : string) : result bytes :=
  match s with
  | EmptyString => Ok []
  | String _ EmptyString => Err "encoding/hex: odd length hex string"
  | String c1 (String c2 s') =>
      match hex_value c1, hex_value c2 with
      | Some h, Some l =>
          match Byte.of_N (16 * h + l) with
          | Some x => b ← hex_decode s'; Ok (x :: b)
          | None => Err "encoding/hex: invalid byte"
          end
      | _, _ => Err "encoding/hex: invalid byte"
      end
  end.

(** Fields of a record, one per line. *)
Fixpoint split_on (sep : ascii) (s : string) : list string :=
  match s with
  | EmptyString => [EmptyString]
  | String c s' =>
      if bool_decide (c = sep) then EmptyString :: split_on sep s'
      else match split_on sep s' with
           | [] => [String c EmptyString]
           | field :: fields => String c field :: fields
           end
  end.

Definition newline : ascii := ascii_of_nat 10.

Definition join_lines (fields : list string) : string :=
  foldr (fun field rest => field +:+ String newline rest) EmptyString fields.

Definition demo_marshal_keystore (k : Keystore DemoCrypto) : result bytes :=
  Ok (bytes_of_string
        (join_lines [lock (Crypto k); hex_encode (payload (Crypto k)); cipher (Crypto k);
                     ID k; Pubkey k])).

Definition demo_unmarshal_keystore (data : bytes) : result (Keystore DemoCrypto) :=
  match split_on newline (string_of_bytes data) with
  | [lock; payload_hex; cipher; id; pubkey; EmptyString] =>
      match hex_decode payload_hex with
      | Ok payload => Ok (mkKeystore (mkDemoCrypto lock payload cipher) id pubkey 4%N "keystore")
      | Err _ => Err "invalid character in keystore"
      end
  | _ => Err "unexpected end of JSON input"
  end.

Definition demo_marshal_keys (keys : list bytes) : string :=
  foldr (fun key rest => hex_encode key +:+ ";" +:+ rest) EmptyString keys.

Definition demo_unmarshal_keys (s : string) : result (list bytes) :=
  match reverse (split_on ";"%char s) with
  | EmptyString :: fields =>
      foldr (fun field rest => key ← hex_decode field; keys ← rest; Ok (key :: keys))
        (Ok []) (reverse fields)
  | _ => Err "unexpected end of JSON input"
  end.

Definition demo_marshal_store (store : AccountStore) : result bytes :=
  Ok (bytes_of_string
        (join_lines [demo_marshal_keys (PrivateKeys store); demo_marshal_keys (PublicKeys store)])).

Definition demo_unmarshal_store (data : bytes) : result AccountStore :=
  match split_on newline (string_of_bytes data) with
  | [privs; pubs; EmptyString] =>
      privateKeys ← demo_unmarshal_keys privs;
      publicKeys ← demo_unmarshal_keys pubs;
      Ok (mkAccountStore privateKeys publicKeys)
  | _ => Err "unexpected end of JSON input"
  end.

#[global] Instance demo_codec : Codec DemoCrypto bytes := {|
  json_Unmarshal_Keystore := demo_unmarshal_keystore;
  json_MarshalIndent_Keystore := demo_marshal_keystore;
  json_MarshalIndent_AccountStore := demo_marshal_store;
  json_Unmarshal_AccountStore := demo_unmarshal_store;
  hex_DecodeString := hex_decode;
  hex_EncodeToString := hex_encode;
  DeterministicName seed separator := "account" +:+ separator +:+ hex_encode (take 2 seed);
  GenerateDepositTransaction validatingKey withdrawalKey :=
    Ok (PublicKey_Marshal validatingKey ++ PublicKey_Marshal withdrawalKey);
  ssz_Marshal data := Ok data
|}.

#[global] Instance demo_range : MapRange bytes := {|
  map_range m := map_to_list m;
  map_range_perm m := reflexivity (map_to_list m)
|}.

(** *** Fixtures *)

Definition demo_host : Host :=
  mkHost (fun _ => Ok (bytes_of_string "shared-pw")) (Ok "5f0c-uuid") 1600000000%Z
         (fun _ => Ok tt).

Definition demo_cfg : Config := mkConfig eipVersion "passwords".

Definition sk1 : bytes := replicate 32 x01.
Definition sk2 : bytes := replicate 32 x02.
Definition pk1 : bytes := PublicKey_Marshal sk1.
Definition pk2 : bytes := PublicKey_Marshal sk2.

(** The keystore file that [generateKeystoreFile] writes for a key. *)
Definition keystore_file (sk : bytes) (password : string) : bytes :=
  match generateKeystoreFile demo_host sk password with
  | Ok encoded => encoded
  | Err _ => []
  end.

Definition no_fault : string -> bool := fun _ => false.

Definition empty_wallet : Wallet :=
  mkWallet "/wallet" "wallet-pw" [] ∅ [] no_fault.

(** Two valid accounts, [alpha] with key [sk1] and [beta] with key [sk2]. *)
Definition two_accounts (names : list string) : Wallet :=
  mkWallet "/wallet" "wallet-pw" names
    (<["alpha.pass" := "pw-a"]> (<["beta.pass" := "pw-b"]> ∅))
    [("alpha", "keystore-1600000000.json", keystore_file sk1 "pw-a");
     ("beta", "keystore-1600000001.json", keystore_file sk2 "pw-b")]
    no_fault.

Definition alpha_beta : Wallet := two_accounts ["alpha"; "beta"].
Definition beta_alpha : Wallet := two_accounts ["beta"; "alpha"].

(** The keymanager over the two accounts, its cache loaded by one shard. *)
Definition demo_km : @Keymanager bytes :=
  (initializeSecretKeysCache 2 (mkKeymanager alpha_beta demo_cfg ∅)).1.

(** A keymanager on an empty wallet. *)
Definition fresh_km : @Keymanager bytes := mkKeymanager empty_wallet demo_cfg ∅.

(** A wallet in which the directory of the name derived from [pk1] exists. *)
Definition taken_wallet : Wallet :=
  mkWallet "/wallet" "wallet-pw" [DeterministicName pk1 "-"] ∅ [] no_fault.

(** A keystore handed to the import: the payload is the hex text of the
    secret key, as [ImportKeystores] decodes it. *)
Definition import_record (sk : bytes) (password cipher : string) : Keystore DemoCrypto :=
  mkKeystore (mkDemoCrypto password (bytes_of_string (hex_encode sk)) cipher)
    "0a1b-uuid" (hex_encode (PublicKey_Marshal sk)) 4%N "keystore".

Definition record1 : Keystore DemoCrypto := import_record sk1 "shared-pw" "aes-128-ctr".
Definition record2 : Keystore DemoCrypto := import_record sk2 "own-pw" "aes-128-ctr".

Definition with_file : CliContext := mkCliContext (Some "/tmp/password.txt").
Definition at_prompt : CliContext := mkCliContext None.

(** The two accounts, the password artifact of [beta] being a wrong one. *)
Definition locked_wallet : Wallet :=
  mkWallet "/wallet" "wallet-pw" ["alpha"; "beta"]
    (<["alpha.pass" := "pw-a"]> (<["beta.pass" := "not-pw-b"]> ∅))
    [("alpha", "keystore-1600000000.json", keystore_file sk1 "pw-a");
     ("beta", "keystore-1600000001.json", keystore_file sk2 "pw-b")]
    no_fault.

(** A wallet on which keystore files cannot be written. *)
Definition no_keystore_wallet : Wallet :=
  mkWallet "/wallet" "wallet-pw" [] ∅ []
    (fun path => bool_decide (path = "account-8001/keystore-1600000000.json")).

(** The creation of the account of [sk1] in the empty wallet. *)
Definition demo_creation : option (result string) * list (Write * Wallet) :=
  CreateAccount 1 demo_host fresh_km sk1 sk2 "pw".

Definition key_of_name (name : string) : bytes :=
  if bool_decide (name = "alpha") then sk1 else sk2.

(** The store of the pair of [record1], serialised, and the container that
    holds it under the password of the wallet. *)
Definition demo_store_bytes : bytes :=
  match json_MarshalIndent_AccountStore (mkAccountStore [sk1] [pk1]) with
  | Ok encoded => encoded
  | Err _ => []
  end.

Definition demo_container : Keystore DemoCrypto :=
  mkKeystore (mkDemoCrypto "wallet-pw" demo_store_bytes "aes-128-ctr") "5f0c-uuid" ""
    encryptor_Version encryptor_Name.

Definition demo_container_bytes : bytes :=
  match json_MarshalIndent_Keystore demo_container with
  | Ok encoded => encoded
  | Err _ => []
  end.

End Demo.

(** ** Properties *)

Section Properties.
Context {CryptoFields SecretKey : Type}.
Context `{!Encryptor CryptoFields, !BLS SecretKey, !Codec CryptoFields SecretKey}.
Context `{!MapRange SecretKey}.

(** *** The secret-key cache *)

Lemma ToBytes48_length (x : bytes) : length (ToBytes48 x) = 48.
Proof.
  unfold ToBytes48. rewrite length_take, length_app, length_replicate. lia.
Qed.

Lemma cache_derived_empty : cache_derived (∅ : gmap bytes SecretKey).
Proof. intros key sk Hl. rewrite lookup_empty in Hl. discriminate. Qed.

Lemma cache_derived_insert (cache : gmap bytes SecretKey) (sk : SecretKey) :
  cache_derived cache ->
  cache_derived (<[ToBytes48 (PublicKey_Marshal sk) := sk]> cache).
Proof.
  intros Hc key sk' Hl.
  destruct (decide (ToBytes48 (PublicKey_Marshal sk) = key)) as [<- | Hne].
  - rewrite lookup_insert_eq in Hl. injection Hl as <-.
    split; [reflexivity | apply ToBytes48_length].
  - rewrite lookup_insert_ne in Hl by assumption. by apply Hc.
Qed.

Lemma scatterLoop_derived (w : Wallet) (accountNames : list string) (n : nat) :
  forall (i : nat) (cache : gmap bytes SecretKey),
    cache_derived cache ->
    cache_derived (scatterLoop w accountNames i n cache).1.
Proof.
  induction n as [| n IH]; intros i cache Hc; simpl; [assumption |].
  destruct (accountNames !! i) as [name |]; [| assumption].
  destruct (unlockAccount w name) as [sk | e]; [| assumption].
  apply IH. by apply cache_derived_insert.
Qed.

Lemma scatterFunc_derived (w : Wallet) (accountNames : list string) (offset entries : nat)
    (cache : gmap bytes SecretKey) :
  cache_derived cache ->
  cache_derived (scatterFunc w accountNames offset entries cache).1.
Proof.
  intros Hc. unfold scatterFunc. case_bool_decide; [| assumption].
  by apply scatterLoop_derived.
Qed.

(** A property of the state that every shard keeps is kept by the run. *)
Lemma scatter_run_preserves {S : Type} (P : S -> Prop) (shards : list (nat * nat))
    (sFunc : nat -> nat -> S -> S * result unit) :
  (forall offset entries s, P s -> P (sFunc offset entries s).1) ->
  forall s, P s -> P (scatter_run shards sFunc s).1.
Proof.
  intros Hf. induction shards as [| [offset entries] rest IH]; intros s Hs; simpl; [assumption |].
  specialize (Hf offset entries s Hs).
  destruct (sFunc offset entries s) as [s1 r1]. simpl in Hf.
  specialize (IH s1 Hf). destruct (scatter_run rest sFunc s1) as [s2 r2]. exact IH.
Qed.

Lemma initializeSecretKeysCache_derived (chunkSize : nat) (dr : Keymanager) :
  cache_derived (keysCache dr) ->
  cache_derived (keysCache (initializeSecretKeysCache chunkSize dr).1).
Proof.
  intros Hc. unfold initializeSecretKeysCache.
  destruct (ValidatingAccountNames dr) as [accountNames | e]; [| assumption].
  destruct (Nat.eqb (length accountNames) 0); [assumption |].
  pose proof (scatter_run_preserves cache_derived
                (scatter_shards chunkSize (length accountNames))
                (scatterFunc (wallet dr) accountNames)
                (fun o e s => scatterFunc_derived (wallet dr) accountNames o e s)
                (keysCache dr) Hc) as Hrun.
  unfold Scatter. destruct (scatter_run _ _ _) as [cache r]. exact Hrun.
Qed.

Lemma NewKeymanager_derived (chunkSize : nat) (w : Wallet) (c : Config) (k : Keymanager) :
  NewKeymanager chunkSize w c = Ok k -> cache_derived (keysCache k).
Proof.
  unfold NewKeymanager. intros Hk.
  pose proof (initializeSecretKeysCache_derived chunkSize (mkKeymanager w c ∅)
                cache_derived_empty) as Hd.
  destruct (initializeSecretKeysCache chunkSize (mkKeymanager w c ∅)) as [k' r].
  destruct r; [| discriminate]. injection Hk as <-. exact Hd.
Qed.

(** C10.  Every entry of the cache has as key the 48-byte public key derived
    from the secret key stored under it: the cache that [NewKeymanager]
    returns satisfies this, and [initializeSecretKeysCache], the only
    operation that writes to the cache, keeps it on whatever list of
    accounts and with whatever shards it runs, whether it succeeds or fails.
    ([Sign] and [FetchValidatingPublicKeys] return no cache: they only read
    it.) *)
Theorem cache_key_is_derived_public_key (chunkSize : nat) (dr : Keymanager) :
  cache_derived (keysCache dr) ->
  cache_derived (keysCache (initializeSecretKeysCache chunkSize dr).1) /\
  (forall k, NewKeymanager chunkSize (wallet dr) (cfg dr) = Ok k ->
             cache_derived (keysCache k)).
Proof.
  intros Hc. split.
  - by apply initializeSecretKeysCache_derived.
  - intros k. apply NewKeymanager_derived.
Qed.

(** The key of a 48-byte public key is the public key itself. *)
Lemma ToBytes48_id (x : bytes) : length x = 48 -> ToBytes48 x = x.
Proof.
  intros Hx. unfold ToBytes48. rewrite take_app_length'; done.
Qed.

(** The worker does not use its offset: whatever shard it is given, it
    loads the accounts from the start of the list. *)
Lemma scatterFunc_ignores_offset (w : Wallet) (accountNames : list string)
    (offset entries : nat) (cache : gmap bytes SecretKey) :
  offset + entries <= length accountNames ->
  scatterFunc w accountNames offset entries cache
  = scatterLoop w accountNames 0 entries cache.
Proof.
  intros Hle. unfold scatterFunc. rewrite bool_decide_eq_true_2 by assumption.
  rewrite length_take, length_drop. f_equal. lia.
Qed.

(** The loop over accounts that all unlock inserts their keys in order. *)
Lemma scatterLoop_unlocks (w : Wallet) (names : list string) (sks : list SecretKey) :
  Forall2 (fun name sk => unlockAccount w name = Ok sk) names sks ->
  forall (done : list string) (cache : gmap bytes SecretKey),
    scatterLoop w (done ++ names) (length done) (length names) cache
    = (foldl insert_key cache sks, Ok tt).
Proof.
  induction 1 as [| name sk names sks Hu _ IH]; intros done cache; simpl; [reflexivity |].
  rewrite list_lookup_middle by reflexivity. rewrite Hu.
  replace (done ++ name :: names) with ((done ++ [name]) ++ names)
    by (by rewrite <- app_assoc).
  replace (S (length done)) with (length (done ++ [name]))
    by (rewrite length_app; simpl; lia).
  apply IH.
Qed.

Lemma foldl_insert_key_other (sks : list SecretKey) :
  forall (cache : gmap bytes SecretKey) (key : bytes),
    key ∉ (fun sk => ToBytes48 (PublicKey_Marshal sk)) <$> sks ->
    foldl insert_key cache sks !! key = cache !! key.
Proof.
  induction sks as [| sk sks IH]; intros cache key Hnot; simpl; [reflexivity |].
  rewrite fmap_cons, not_elem_of_cons in Hnot. destruct Hnot as [Hne Hnot].
  rewrite IH by assumption. unfold insert_key. by rewrite lookup_insert_ne.
Qed.

Lemma foldl_insert_key_lookup (sks : list SecretKey) :
  forall (cache : gmap bytes SecretKey) (sk : SecretKey),
    NoDup ((fun sk => ToBytes48 (PublicKey_Marshal sk)) <$> sks) ->
    sk ∈ sks ->
    foldl insert_key cache sks !! ToBytes48 (PublicKey_Marshal sk) = Some sk.
Proof.
  induction sks as [| sk0 sks IH]; intros cache sk Hnd Hin; [by apply not_elem_of_nil in Hin |].
  rewrite fmap_cons in Hnd. apply NoDup_cons in Hnd as [Hfresh Hnd].
  apply elem_of_cons in Hin as [-> | Hin]; simpl.
  - rewrite foldl_insert_key_other by assumption.
    unfold insert_key. by rewrite lookup_insert_eq.
  - by apply IH.
Qed.

Lemma foldl_insert_key_size (sks : list SecretKey) :
  forall cache : gmap bytes SecretKey,
    NoDup ((fun sk => ToBytes48 (PublicKey_Marshal sk)) <$> sks) ->
    (forall sk, sk ∈ sks -> cache !! ToBytes48 (PublicKey_Marshal sk) = None) ->
    size (foldl insert_key cache sks) = size cache + length sks.
Proof.
  induction sks as [| sk0 sks IH]; intros cache Hnd Hnone; simpl; [lia |].
  rewrite fmap_cons in Hnd. apply NoDup_cons in Hnd as [Hfresh Hnd].
  rewrite IH; [| assumption |].
  - unfold insert_key. rewrite map_size_insert_None by (apply Hnone; by left). lia.
  - intros sk Hin. unfold insert_key. rewrite lookup_insert_ne.
    + apply Hnone. by right.
    + intros Heq. apply Hfresh. rewrite Heq. apply list_elem_of_fmap. by exists sk.
Qed.

Lemma scatter_shards_single (n : nat) : 0 < n -> scatter_shards n n = [(0, n)].
Proof.
  intros Hn. unfold scatter_shards.
  rewrite Nat.Div0.mod_same, Nat.div_same by lia. simpl.
  by rewrite Nat.sub_0_r, Nat.min_id.
Qed.

(** With a single shard, which starts at offset 0, initialization does what
    the specification says of it: over accounts that all unlock, to secret
    keys with different public keys, it succeeds with a cache that holds one
    entry for every account; [Sign] succeeds for the public key of every
    account and fails with the not-found error for a key that is none of
    theirs. *)
Lemma single_shard_cache_complete (w : Wallet) (c : Config)
    (names : list string) (sks : list SecretKey) :
  ListDirs w = Ok names ->
  Forall2 (fun name sk => unlockAccount w name = Ok sk) names sks ->
  NoDup ((fun sk => ToBytes48 (PublicKey_Marshal sk)) <$> sks) ->
  exists k,
    NewKeymanager (length names) w c = Ok k /\
    keysCache k = foldl insert_key ∅ sks /\
    size (keysCache k) = length names /\
    (forall sk root, sk ∈ sks ->
       Sign k (mkSignRequest (Some (ToBytes48 (PublicKey_Marshal sk))) root)
       = Ok (SecretKey_Sign sk root)) /\
    (forall pk root,
       ToBytes48 pk ∉ (fun sk => ToBytes48 (PublicKey_Marshal sk)) <$> sks ->
       Sign k (mkSignRequest (Some pk) root) = Err "no signing key found in keys cache").
Proof.
  intros Hls Hall Hnd.
  pose proof (Forall2_length _ _ _ Hall) as Hlen.
  assert (Hinit : exists cache,
            NewKeymanager (length names) w c = Ok (mkKeymanager w c cache) /\
            cache = foldl insert_key ∅ sks).
  { unfold NewKeymanager, initializeSecretKeysCache, ValidatingAccountNames. simpl.
    rewrite Hls. destruct names as [| name names].
    - apply Forall2_nil_inv_l in Hall as ->. simpl. eauto.
    - change (Nat.eqb (length (name :: names)) 0) with false. cbv iota.
      unfold Scatter. rewrite scatter_shards_single by (simpl; lia).
      cbn [scatter_run]. rewrite scatterFunc_ignores_offset by lia.
      pose proof (scatterLoop_unlocks w (name :: names) sks Hall [] ∅) as Hloop.
      simpl in Hloop. simpl. rewrite Hloop. eauto. }
  destruct Hinit as (cache & Hk & ->). eexists. split; [exact Hk |]. simpl.
  split; [reflexivity |]. split; [| split].
  - rewrite foldl_insert_key_size; [rewrite map_size_empty; lia | assumption |].
    intros sk _. apply lookup_empty.
  - intros sk root Hin. unfold Sign. simpl.
    rewrite ToBytes48_id by apply ToBytes48_length.
    by rewrite foldl_insert_key_lookup.
  - intros pk root Hnot. unfold Sign. simpl.
    rewrite foldl_insert_key_other by assumption. by rewrite lookup_empty.
Qed.

(** With a single shard the cache does not depend on the order in which the
    accounts are listed. *)
Lemma single_shard_order_independent (sks sks' : list SecretKey) :
  NoDup ((fun sk => ToBytes48 (PublicKey_Marshal sk)) <$> sks) ->
  sks ≡ₚ sks' ->
  foldl insert_key (∅ : gmap bytes SecretKey) sks = foldl insert_key ∅ sks'.
Proof.
  intros Hnd Hperm.
  assert (Hnd' : NoDup ((fun sk => ToBytes48 (PublicKey_Marshal sk)) <$> sks'))
    by (by rewrite <- Hperm).
  apply map_eq. intros key.
  destruct (decide (key ∈ (fun sk => ToBytes48 (PublicKey_Marshal sk)) <$> sks)) as [Hin | Hout].
  - apply list_elem_of_fmap in Hin as (sk & -> & Hin).
    rewrite !foldl_insert_key_lookup; [done | done | by rewrite <- Hperm | done | done].
  - rewrite !foldl_insert_key_other; [done | by rewrite <- Hperm | done].
Qed.

(** *** Sign *)

(** The 48-byte key of a byte string, written out. *)
Lemma ToBytes48_pad (x : bytes) :
  ToBytes48 x = take 48 x ++ replicate (48 - length x) x00.
Proof.
  unfold ToBytes48. rewrite take_app, take_replicate. do 2 f_equal. lia.
Qed.

(** C8, as amended.  On a cache that satisfies the invariant of its keys:
    [Sign] fails when the request has no public key (the key is nil).  A
    public key that is there, whatever its length, is looked up by its first
    48 bytes, padded with zeros to 48 bytes: [Sign] returns what it returns
    for that 48-byte key; it fails with the not-found error exactly when no
    entry of the cache has that 48-byte key, and for an entry that has it
    returns the signature of the signing root under the secret key of the
    entry, whose derived public key is that 48-byte key.  For a public key
    of 48 bytes this is: not-found exactly when the key is absent from
    the cache, and otherwise the signature under the secret key cached for
    it.  An empty key that is not nil is looked up as the all-zero key, and
    fails when no public key of the key scheme is all zeros.  There is no
    other outcome. *)
Theorem Sign_outcomes (dr : Keymanager) (req : SignRequest) :
  cache_derived (keysCache dr) ->
  (PublicKey req = None -> Sign dr req = Err "nil public key in request") /\
  (forall pk, PublicKey req = Some pk ->
     Sign dr req
     = Sign dr (mkSignRequest (Some (take 48 pk ++ replicate (48 - length pk) x00))
                  (SigningRoot req)) /\
     (Sign dr req = Err "no signing key found in keys cache"
        <-> ToBytes48 pk ∉ dom (keysCache dr)) /\
     (forall sk, (ToBytes48 pk, sk) ∈ map_to_list (keysCache dr) ->
        Sign dr req = Ok (SecretKey_Sign sk (SigningRoot req)) /\
        ToBytes48 (PublicKey_Marshal sk) = ToBytes48 pk)) /\
  (forall pk, PublicKey req = Some pk -> length pk = 48 ->
     (Sign dr req = Err "no signing key found in keys cache"
        <-> pk ∉ dom (keysCache dr)) /\
     (forall sk, keysCache dr !! pk = Some sk ->
        Sign dr req = Ok (SecretKey_Sign sk (SigningRoot req)) /\
        ToBytes48 (PublicKey_Marshal sk) = pk)) /\
  ((forall sk : SecretKey, ToBytes48 (PublicKey_Marshal sk) <> replicate 48 x00) ->
   PublicKey req = Some [] ->
   Sign dr req = Err "no signing key found in keys cache") /\
  (Sign dr req = Err "nil public key in request" \/
   Sign dr req = Err "no signing key found in keys cache" \/
   exists pk sk, PublicKey req = Some pk /\ keysCache dr !! ToBytes48 pk = Some sk /\
                 Sign dr req = Ok (SecretKey_Sign sk (SigningRoot req))).
Proof.
  intros Hc.
  assert (Hlookup : forall pk, PublicKey req = Some pk ->
            (Sign dr req = Err "no signing key found in keys cache"
               <-> ToBytes48 pk ∉ dom (keysCache dr)) /\
            (forall sk, keysCache dr !! ToBytes48 pk = Some sk ->
               Sign dr req = Ok (SecretKey_Sign sk (SigningRoot req)) /\
               ToBytes48 (PublicKey_Marshal sk) = ToBytes48 pk)).
  { intros pk Hpk. unfold Sign. rewrite Hpk, not_elem_of_dom. split.
    - destruct (keysCache dr !! ToBytes48 pk); split; done.
    - intros sk Hsk. rewrite Hsk. split; [done |]. symmetry. by apply Hc in Hsk as [-> _]. }
  split; [| split; [| split; [| split]]].
  - intros Hnil. unfold Sign. by rewrite Hnil.
  - intros pk Hpk. destruct (Hlookup pk Hpk) as [Hnone Hsome]. split; [| split].
    + unfold Sign. rewrite Hpk. simpl.
      by rewrite <- ToBytes48_pad, (ToBytes48_id (ToBytes48 pk)) by apply ToBytes48_length.
    + exact Hnone.
    + intros sk Hin. apply elem_of_map_to_list in Hin. by apply Hsome.
  - intros pk Hpk Hlen. destruct (Hlookup pk Hpk) as [Hnone Hsome].
    rewrite (ToBytes48_id pk Hlen) in Hnone, Hsome. split; [exact Hnone | exact Hsome].
  - intros Hnz Hpk. apply (Hlookup [] Hpk). rewrite not_elem_of_dom.
    destruct (keysCache dr !! ToBytes48 []) as [sk |] eqn:Hsk; [| done].
    apply Hc in Hsk as [Hkey _]. symmetry in Hkey. by apply Hnz in Hkey.
  - unfold Sign. destruct (PublicKey req) as [pk |]; [| by left].
    destruct (keysCache dr !! ToBytes48 pk) as [sk |] eqn:Hl; [| by right; left].
    right; right. exists pk, sk. auto.
Qed.

(** *** FetchValidatingPublicKeys *)

(** Writing a run of values from an index on fills the array from there. *)
Lemma fetchFromCache_fill (entries : list (bytes * SecretKey)) :
  forall (filled blanks : list bytes),
    length entries <= length blanks ->
    fetchFromCache entries (length filled) (filled ++ blanks)
    = filled ++ entries.*1 ++ drop (length entries) blanks.
Proof.
  induction entries as [| kv rest IH]; intros filled blanks Hlen; simpl.
  - by rewrite drop_0.
  - destruct blanks as [| blank blanks]; simpl in Hlen; [lia |].
    rewrite insert_app_r_alt by lia. rewrite Nat.sub_diag. simpl.
    replace (filled ++ kv.1 :: blanks) with ((filled ++ [kv.1]) ++ blanks)
      by (by rewrite <- app_assoc).
    replace (S (length filled)) with (length (filled ++ [kv.1]))
      by (rewrite length_app; simpl; lia).
    rewrite IH by lia. by rewrite <- app_assoc.
Qed.

Lemma fetchFromStorage_fill (w : Wallet) (accountNames : list string) :
  forall (filled blanks : list bytes),
    length accountNames <= length blanks ->
    fetchFromStorage w accountNames (length filled) (filled ++ blanks)
    = keys ← stored_pubkeys w accountNames;
      Ok (filled ++ keys ++ drop (length accountNames) blanks).
Proof.
  induction accountNames as [| name rest IH]; intros filled blanks Hlen; simpl.
  - by rewrite drop_0.
  - destruct blanks as [| blank blanks]; simpl in Hlen; [lia |].
    unfold stored_pubkey.
    destruct (Wrap (ReadFileAtPath w name KeystoreFileName) _) as [encoded | e];
      simpl; [| reflexivity].
    destruct (Wrap (json_Unmarshal_Keystore encoded) _) as [keystoreFile | e];
      simpl; [| reflexivity].
    destruct (Wrap (hex_DecodeString (Pubkey keystoreFile)) _) as [pubKeyBytes | e];
      simpl; [| reflexivity].
    rewrite insert_app_r_alt by lia. rewrite Nat.sub_diag. simpl.
    replace (filled ++ ToBytes48 pubKeyBytes :: blanks)
      with ((filled ++ [ToBytes48 pubKeyBytes]) ++ blanks) by (by rewrite <- app_assoc).
    replace (S (length filled)) with (length (filled ++ [ToBytes48 pubKeyBytes]))
      by (rewrite length_app; simpl; lia).
    rewrite IH by lia.
    destruct (stored_pubkeys w rest) as [keys | e]; simpl; [| reflexivity].
    by rewrite <- app_assoc.
Qed.

Lemma map_range_length (m : gmap bytes SecretKey) : length (map_range m) = size m.
Proof. rewrite (Permutation_length (map_range_perm m)). apply length_map_to_list. Qed.

Lemma fetchFromStorage_passwords (w : Wallet) (passwords : gmap string string)
    (accountNames : list string) :
  forall (i : nat) (publicKeys : list bytes),
    fetchFromStorage (with_passwords w passwords) accountNames i publicKeys
    = fetchFromStorage w accountNames i publicKeys.
Proof.
  induction accountNames as [| name rest IH]; intros i publicKeys; simpl; [reflexivity |].
  change (ReadFileAtPath (with_passwords w passwords) name KeystoreFileName)
    with (ReadFileAtPath w name KeystoreFileName).
  destruct (Wrap (ReadFileAtPath w name KeystoreFileName) _); simpl; [| reflexivity].
  destruct (Wrap (json_Unmarshal_Keystore a) _); simpl; [| reflexivity].
  destruct (Wrap (hex_DecodeString (Pubkey a0)) _); simpl; [| reflexivity].
  apply IH.
Qed.

(** C9.  With the account names that the wallet lists: when the size of the
    cache equals their number, the public keys returned are the keys of the
    cache, in the order in which the map is ranged over; otherwise they are,
    account by account, the [pubkey] field of the keystore record read from
    storage, hex-decoded.  Neither path decrypts or reads a password: the
    result is the same whatever the password artifacts are. *)
Theorem FetchValidatingPublicKeys_paths (dr : Keymanager) (accountNames : list string) :
  ValidatingAccountNames dr = Ok accountNames ->
  (size (keysCache dr) = length accountNames ->
     FetchValidatingPublicKeys dr = Ok (map_range (keysCache dr)).*1 /\
     (map_range (keysCache dr)).*1 ≡ₚ (map_to_list (keysCache dr)).*1) /\
  (size (keysCache dr) <> length accountNames ->
     FetchValidatingPublicKeys dr = stored_pubkeys (wallet dr) accountNames) /\
  (forall passwords,
     FetchValidatingPublicKeys
       (mkKeymanager (with_passwords (wallet dr) passwords) (cfg dr) (keysCache dr))
     = FetchValidatingPublicKeys dr).
Proof.
  intros Hnames. unfold FetchValidatingPublicKeys. split; [| split].
  - intros Hsize. rewrite Hnames. simpl. rewrite bool_decide_eq_true_2 by assumption.
    split; [| by rewrite (map_range_perm (keysCache dr))].
    f_equal.
    pose proof (fetchFromCache_fill (map_range (keysCache dr)) []
                  (replicate (length accountNames) (replicate 48 x00))) as Hfill.
    simpl in Hfill. rewrite Hfill.
    + rewrite drop_ge; [by rewrite app_nil_r |].
      rewrite length_replicate, map_range_length. lia.
    + rewrite length_replicate, map_range_length. lia.
  - intros Hsize. rewrite Hnames. simpl. rewrite bool_decide_eq_false_2 by assumption.
    pose proof (fetchFromStorage_fill (wallet dr) accountNames []
                  (replicate (length accountNames) (replicate 48 x00))) as Hfill.
    simpl in Hfill. rewrite Hfill by (rewrite length_replicate; lia).
    destruct (stored_pubkeys (wallet dr) accountNames) as [keys | e]; simpl; [| reflexivity].
    rewrite drop_ge by (rewrite length_replicate; lia). by rewrite app_nil_r.
  - intros passwords. simpl.
    change (ValidatingAccountNames
              (mkKeymanager (with_passwords (wallet dr) passwords) (cfg dr) (keysCache dr)))
      with (ValidatingAccountNames dr).
    destruct (ValidatingAccountNames dr) as [names | e]; simpl; [| reflexivity].
    case_bool_decide; [reflexivity |]. apply fetchFromStorage_passwords.
Qed.

(** *** CreateAccount *)

Lemma hasDir_spec (w : Wallet) (name : string) :
  hasDir w (filepath_Join (AccountsDir w) name) = Ok (bool_decide (name ∈ dirs w)).
Proof.
  unfold hasDir. f_equal. apply bool_decide_ext. rewrite list_elem_of_fmap. split.
  - intros (d & Heq & Hd). unfold filepath_Join in Heq.
    apply String.app_inj in Heq. by simplify_eq.
  - intros Hd. by exists name.
Qed.

(** With the directory of the deterministic name free, one round suffices. *)
Lemma generateAccountName_free (fuel : nat) (w : Wallet) (pubKey : bytes) :
  DeterministicName pubKey "-" ∉ dirs w ->
  generateAccountName (S fuel) w pubKey = Some (Ok (DeterministicName pubKey "-")).
Proof.
  intros Hfree. cbn [generateAccountName]. rewrite hasDir_spec.
  by rewrite bool_decide_eq_false_2.
Qed.

(** With the directory of the deterministic name taken, the loop asks for
    the same name in every round and never ends. *)
Lemma generateAccountName_taken (w : Wallet) (pubKey : bytes) :
  DeterministicName pubKey "-" ∈ dirs w ->
  forall fuel, generateAccountName fuel w pubKey = None.
Proof.
  intros Htaken. induction fuel as [| fuel IH]; cbn [generateAccountName]; [reflexivity |].
  rewrite hasDir_spec. by rewrite bool_decide_eq_true_2.
Qed.

(** A name that the loop returns has no directory. *)
Lemma generateAccountName_unused (fuel : nat) (w : Wallet) (pubKey : bytes) (name : string) :
  generateAccountName fuel w pubKey = Some (Ok name) ->
  name = DeterministicName pubKey "-" /\ name ∉ dirs w.
Proof.
  induction fuel as [| fuel IH]; cbn [generateAccountName]; [discriminate |].
  rewrite hasDir_spec. case_bool_decide as Hd; simpl.
  - apply IH.
  - intros [= <-]. auto.
Qed.

Lemma WritePasswordToDisk_effect (w w1 : Wallet) (name password : string) :
  WritePasswordToDisk w (name +:+ ".pass") password = Ok w1 ->
  has_password w1 name = true /\
  files w1 = files w /\
  (forall n, has_password w n = true -> has_password w1 n = true).
Proof.
  unfold WritePasswordToDisk. destruct (ioFault w _); [discriminate |].
  intros [= <-]. unfold has_password, PasswordFileSuffix. simpl. repeat split.
  - apply bool_decide_eq_true_2. rewrite lookup_insert_eq. eauto.
  - intros n Hn. apply bool_decide_eq_true_1 in Hn. apply bool_decide_eq_true_2.
    destruct (decide (name +:+ ".pass" = n +:+ ".pass")) as [-> | Hne].
    + rewrite lookup_insert_eq. eauto.
    + by rewrite lookup_insert_ne.
Qed.

Lemma WriteFileAtPath_effect (w w' : Wallet) (accountName fileName : string) (data : bytes) :
  WriteFileAtPath w accountName fileName data = Ok w' ->
  passwordFiles w' = passwordFiles w /\
  files w' = (accountName, fileName, data) :: files w.
Proof.
  unfold WriteFileAtPath. destruct (ioFault w _); [discriminate |].
  intros [= <-]. auto.
Qed.

Lemma WriteFileAtPath_keeps (w w' : Wallet) (accountName fileName : string) (data : bytes) :
  WriteFileAtPath w accountName fileName data = Ok w' ->
  has_password w accountName = true ->
  password_before_keystore w ->
  password_before_keystore w' /\ has_password w' accountName = true.
Proof.
  intros Hw Hp Hinv. apply WriteFileAtPath_effect in Hw as [Hpw Hf].
  assert (Hsame : forall n, has_password w' n = has_password w n)
    by (intros n; unfold has_password; by rewrite Hpw).
  split; [| by rewrite Hsame].
  intros n. unfold has_keystore. rewrite Hf, Hsame. simpl.
  intros [Hnew | Hold]%orb_true_iff.
  - unfold file_matches in Hnew. simpl in Hnew.
    apply andb_true_iff in Hnew as [Hn _]. apply bool_decide_eq_true_1 in Hn. by subst.
  - by apply Hinv.
Qed.

Lemma WritePasswordToDisk_keeps (w w1 : Wallet) (name password : string) :
  WritePasswordToDisk w (name +:+ ".pass") password = Ok w1 ->
  password_before_keystore w ->
  password_before_keystore w1.
Proof.
  intros Hw Hinv. apply WritePasswordToDisk_effect in Hw as (_ & Hf & Hmono).
  intros n Hk. apply Hmono, Hinv. unfold has_keystore in *. by rewrite <- Hf.
Qed.

Ltac trace_member H :=
  repeat match type of H with
         | _ ∈ _ ++ _ => apply elem_of_app in H as [H | H]
         | _ ∈ _ :: _ => apply elem_of_cons in H as [-> | H]
         | _ ∈ [] => by apply not_elem_of_nil in H
         end.

(** C7.  From storage in which no account has a keystore record without its
    password artifact, every state that storage goes through in a run of
    [CreateAccount] (whether the run succeeds, fails at any step, or is
    still looking for a name) is again such a state; and a write of a
    keystore record for a name comes after the write of the password
    artifact for that name, which leaves the name with the password and
    with no keystore record that was not there before. *)
Theorem CreateAccount_password_before_keystore (fuel : nat) (h : Host) (dr : Keymanager)
    (validatingKey withdrawalKey : SecretKey) (password : string) :
  password_before_keystore (wallet dr) ->
  let writes := (CreateAccount fuel h dr validatingKey withdrawalKey password).2 in
  (forall step, step ∈ writes -> password_before_keystore step.2) /\
  (forall j name fileName w,
     writes !! j = Some (FileWritten name fileName, w) ->
     glob KeystoreFileName fileName = true ->
     exists i w1,
       i < j /\
       writes !! i = Some (PasswordWritten (name +:+ PasswordFileSuffix), w1) /\
       has_password w1 name = true /\
       has_keystore w1 name = has_keystore (wallet dr) name).
Proof.
  intros Hinv. unfold CreateAccount.
  assert (Hnone : forall r : option (result string),
    let writes := (r, @nil (Write * Wallet)).2 in
    (forall step, step ∈ writes -> password_before_keystore step.2) /\
    (forall j name fileName w,
       writes !! j = Some (FileWritten name fileName, w) ->
       glob KeystoreFileName fileName = true ->
       exists i w1,
         i < j /\
         writes !! i = Some (PasswordWritten (name +:+ PasswordFileSuffix), w1) /\
         has_password w1 name = true /\
         has_keystore w1 name = has_keystore (wallet dr) name)).
  { intros r. simpl. split.
    - intros step Hin. trace_member Hin.
    - intros j ? ? ? Hj. rewrite lookup_nil in Hj. discriminate. }
  destruct (generateAccountName _ _ _) as [[accountName | e] |]; [| apply Hnone ..].
  destruct (WritePasswordToDisk _ _ _) as [w1 | e] eqn:Hw1; [| apply Hnone].
  pose proof (WritePasswordToDisk_keeps _ _ _ _ Hw1 Hinv) as Hinv1.
  apply WritePasswordToDisk_effect in Hw1 as (Hp1 & Hf1 & _).
  assert (Hk1 : has_keystore w1 accountName = has_keystore (wallet dr) accountName)
    by (unfold has_keystore; by rewrite Hf1).
  assert (Hshort : forall e0,
    let writes := (Some (Err e0) : option (result string),
                   [(PasswordWritten (accountName +:+ ".pass"), w1)]).2 in
    (forall step, step ∈ writes -> password_before_keystore step.2) /\
    (forall j name fileName w,
       writes !! j = Some (FileWritten name fileName, w) ->
       glob KeystoreFileName fileName = true ->
       exists i w1',
         i < j /\
         writes !! i = Some (PasswordWritten (name +:+ PasswordFileSuffix), w1') /\
         has_password w1' name = true /\
         has_keystore w1' name = has_keystore (wallet dr) name)).
  { intros e0. simpl. split.
    - intros step Hin. trace_member Hin. exact Hinv1.
    - intros [| [| j]] ? ? ? Hj; discriminate. }
  destruct (generateKeystoreFile _ _ _) as [encoded | e]; [| apply Hshort].
  destruct (GenerateDepositTransaction _ _) as [depositData | e]; [| apply Hshort].
  destruct (ssz_Marshal _) as [encodedDepositData | e]; [| apply Hshort].
  destruct (WriteFileAtPath w1 _ _ _) as [w2 | e] eqn:Hw2; [| apply Hshort].
  destruct (WriteFileAtPath_keeps _ _ _ _ _ Hw2 Hp1 Hinv1) as [Hinv2 Hp2].
  destruct (WriteFileAtPath w2 _ _ _) as [w3 | e] eqn:Hw3; simpl.
  - destruct (WriteFileAtPath_keeps _ _ _ _ _ Hw3 Hp2 Hinv2) as [Hinv3 Hp3].
    split.
    + intros step Hin. trace_member Hin; simpl; assumption.
    + intros [| [| [| j]]] name fileName w Hj Hglob; simpl in Hj; simplify_eq.
      exists 0, w1. split; [lia |]. split; [done |]. split; done.
  - split.
    + intros step Hin. trace_member Hin; simpl; assumption.
    + intros [| [| j]] name fileName w Hj Hglob; simpl in Hj; simplify_eq.
Qed.

(** *** ImportKeystores with a password file *)

Lemma import_failure_pair (password : string) (k : Keystore CryptoFields) :
  import_failure password k = None <-> is_Some (imported_pair password k).
Proof.
  unfold import_failure, imported_pair.
  destruct (Decrypt (Crypto k) password) as [privKey | e];
    [destruct (hex_DecodeString (string_of_bytes privKey)),
              (hex_DecodeString (Pubkey k)) |];
    simpl; split; intros Hx;
    first [discriminate | by destruct Hx | by eexists | reflexivity].
Qed.

(** The loop stops at the first record that fails, with that record's
    error, whatever records follow it. *)
Lemma importWithPasswordFile_abort (password : string)
    (pre : list (Keystore CryptoFields)) (k : Keystore CryptoFields)
    (post : list (Keystore CryptoFields)) (e : string) :
  Forall (fun k0 => import_failure password k0 = None) pre ->
  import_failure password k = Some e ->
  forall i privKeys pubKeys,
    importWithPasswordFile password (pre ++ k :: post) i privKeys pubKeys = Err e.
Proof.
  intros Hpre Hk. induction Hpre as [| k0 pre Hk0 _ IH]; intros i privKeys pubKeys; simpl.
  - unfold import_failure in Hk.
    destruct (Decrypt (Crypto k) password) as [privKey | e0];
      [| injection Hk as <-; by destruct (invalid_checksum e0)].
    destruct (hex_DecodeString (string_of_bytes privKey)); simpl; [| by simplify_eq].
    destruct (hex_DecodeString (Pubkey k)); simpl; by simplify_eq.
  - unfold import_failure in Hk0.
    destruct (Decrypt (Crypto k0) password) as [privKey | e0]; [| discriminate].
    destruct (hex_DecodeString (string_of_bytes privKey)); simpl; [| discriminate].
    destruct (hex_DecodeString (Pubkey k0)); simpl; [| discriminate].
    apply IH.
Qed.

(** When every record imports, the loop fills the two arrays, index by
    index, with the pairs of the records in their order. *)
Lemma importWithPasswordFile_fill (password : string)
    (keystores : list (Keystore CryptoFields)) :
  forall (pairs : list (bytes * bytes)) (fp bp fq bq : list bytes),
    mapM (imported_pair password) keystores = Some pairs ->
    length fp = length fq ->
    length keystores <= length bp -> length keystores <= length bq ->
    importWithPasswordFile password keystores (length fp) (fp ++ bp) (fq ++ bq)
    = Ok (fp ++ pairs.*1 ++ drop (length keystores) bp,
          fq ++ pairs.*2 ++ drop (length keystores) bq).
Proof.
  induction keystores as [| k rest IH]; intros pairs fp bp fq bq Hm Hl Hp Hq; simpl in *.
  - injection Hm as <-. reflexivity.
  - destruct bp as [| b1 bp]; simpl in Hp; [lia |].
    destruct bq as [| b2 bq]; simpl in Hq; [lia |].
    destruct (imported_pair password k) as [[privKeyBytes pubKeyBytes] |] eqn:Hpair;
      [| by simpl in Hm].
    simpl in Hm. destruct (mapM _ rest) as [pairs' |] eqn:Hrest; [| by simpl in Hm].
    simpl in Hm. injection Hm as <-.
    unfold imported_pair in Hpair.
    destruct (Decrypt (Crypto k) password) as [privKey | e]; [| discriminate].
    destruct (hex_DecodeString (string_of_bytes privKey)) as [privKeyBytes' | e];
      [| discriminate].
    destruct (hex_DecodeString (Pubkey k)) as [pubKeyBytes' | e]; [| discriminate].
    injection Hpair as -> ->. simpl.
    rewrite !insert_app_r_alt by lia. rewrite Hl, !Nat.sub_diag. simpl.
    replace (fp ++ privKeyBytes :: bp) with ((fp ++ [privKeyBytes]) ++ bp)
      by (by rewrite <- app_assoc).
    replace (fq ++ pubKeyBytes :: bq) with ((fq ++ [pubKeyBytes]) ++ bq)
      by (by rewrite <- app_assoc).
    replace (S (length fq)) with (length (fp ++ [privKeyBytes]))
      by (rewrite length_app; simpl; lia).
    rewrite (IH pairs'); [| done | rewrite !length_app; simpl; lia | lia | lia].
    by rewrite <- !app_assoc.
Qed.

(** X16.  With a password file, records that all import, and a codec and an
    encryptor that give back what they were given, the container that is
    written holds the pairs of the records, in their order. *)
Lemma shared_password_import_roundtrip (h : Host) (dr : Keymanager)
    (passwordFilePath : string) (data : bytes)
    (keystores : list (Keystore CryptoFields)) (pairs : list (bytes * bytes))
    (c : Console) (id : string) (encodedStore encodedAccounts : bytes)
    (cryptoFields : CryptoFields) :
  let store := mkAccountStore pairs.*1 pairs.*2 in
  let accountsKeystore := mkKeystore cryptoFields id "" encryptor_Version encryptor_Name in
  ioutil_ReadFile h passwordFilePath = Ok data ->
  mapM (imported_pair (string_of_bytes data)) keystores = Some pairs ->
  uuid_NewRandom h = Ok id ->
  json_MarshalIndent_AccountStore store = Ok encodedStore ->
  Encrypt encodedStore (Password (wallet dr)) = Ok cryptoFields ->
  json_MarshalIndent_Keystore accountsKeystore = Ok encodedAccounts ->
  ioFault (wallet dr)
    (filepath_Join accountsPath (accountsKeystoreFileName (time_Now h))) = false ->
  json_Unmarshal_Keystore encodedAccounts = Ok accountsKeystore ->
  Decrypt cryptoFields (Password (wallet dr)) = Ok encodedStore ->
  json_Unmarshal_AccountStore encodedStore = Ok store ->
  exists w',
    ImportKeystores h dr (mkCliContext (Some passwordFilePath)) keystores c = (Ok tt, w', c) /\
    read_container w' (Password (wallet dr)) = Ok store /\
    length pairs = length keystores.
Proof.
  intros store accountsKeystore Hread Hpairs Hid Hms Henc Hmk Hio Huk Hdec Hus.
  pose proof (importWithPasswordFile_fill (string_of_bytes data) keystores pairs
                [] (replicate (length keystores) []) [] (replicate (length keystores) [])
                Hpairs eq_refl) as Hfill.
  rewrite !length_replicate in Hfill. specialize (Hfill (le_n _) (le_n _)).
  rewrite !drop_ge, !app_nil_r in Hfill by (rewrite length_replicate; lia).
  simpl in Hfill.
  unfold ImportKeystores. simpl. rewrite Hread, Hfill. simpl.
  unfold writeAccountsKeystore, createAccountsKeystore. rewrite Hid. simpl.
  fold store. rewrite Hms. simpl. rewrite Henc. simpl. fold accountsKeystore.
  rewrite Hmk. simpl. unfold WriteFileAtPath. rewrite Hio.
  eexists. split; [reflexivity |]. split.
  - unfold read_container. simpl. rewrite Huk. simpl. rewrite Hdec. simpl. exact Hus.
  - symmetry. by eapply length_mapM.
Qed.

(** C5.  With the password file flag set and the file read: when the
    records before a record all import and that record fails, the import
    returns that record's error at once, whatever records follow, and storage
    is left as it was (no container is written).  When the failure is a
    decryption rejected for its checksum, the error is the one that names the
    public key of the record; any other failure of the decryption is
    returned as it is. *)
Theorem shared_password_import_aborts (h : Host) (dr : Keymanager)
    (passwordFilePath : string) (data : bytes)
    (pre : list (Keystore CryptoFields)) (k : Keystore CryptoFields)
    (post : list (Keystore CryptoFields)) (c : Console) (e : string) :
  ioutil_ReadFile h passwordFilePath = Ok data ->
  Forall (fun k0 => import_failure (string_of_bytes data) k0 = None) pre ->
  import_failure (string_of_bytes data) k = Some e ->
  ImportKeystores h dr (mkCliContext (Some passwordFilePath)) (pre ++ k :: post) c
    = (Err e, wallet dr, c) /\
  (forall e0, Decrypt (Crypto k) (string_of_bytes data) = Err e0 ->
     e = if invalid_checksum e0
         then "invalid password for account with public key " +:+ Pubkey k
         else e0).
Proof.
  intros Hread Hpre Hk. split.
  - unfold ImportKeystores. simpl. rewrite Hread.
    by rewrite (importWithPasswordFile_abort _ pre k post e Hpre Hk).
  - intros e0 He0. unfold import_failure in Hk. rewrite He0 in Hk. by simplify_eq.
Qed.

(** *** ImportKeystores at the prompt *)






(** One round of the prompt loop, as the code has it: prompt, then decrypt
    with the answer, then go round again on an invalid checksum. *)
Lemma askUntilPasswordConfirms_round (k : Keystore CryptoFields) (pubKey : string)
    (c : Console) :
  askUntilPasswordConfirms k pubKey c
  = let '(r, c1) := PasswordPrompt (prompt_for pubKey) c in
    match r with
    | Err e => (Err ("could not read account password: " +:+ e), c1)
    | Ok password =>
        match Decrypt (Crypto k) password with
        | Err e =>
            if invalid_checksum e then askUntilPasswordConfirms k pubKey c1 else (Err e, c1)
        | Ok secretKey => (Ok secretKey, c1)
        end
    end.
Proof.
  destruct c as [[| [password | e] script] asked]; reflexivity.
Qed.






End Properties.

(** ** Further properties of the code *)

Section Further.
Context {CryptoFields SecretKey : Type}.
Context `{!Encryptor CryptoFields, !BLS SecretKey, !Codec CryptoFields SecretKey}.
Context `{!MapRange SecretKey}.

Ltac step_member H :=
  repeat match type of H with
         | _ ∈ _ ++ _ => apply elem_of_app in H as [H | H]
         | _ ∈ _ :: _ => apply elem_of_cons in H as [-> | H]
         | _ ∈ [] => by apply not_elem_of_nil in H
         end.

(** *** File names *)

Lemma glob_star_json (s : string) : glob "*.json" (s +:+ ".json") = true.
Proof.
  induction s as [| a s IH].
  - reflexivity.
  - change (glob "*.json" (String a s +:+ ".json"))
      with (glob ".json" (String a (s +:+ ".json")) || glob "*.json" (s +:+ ".json")).
    rewrite IH. apply orb_true_r.
Qed.

Lemma glob_keystore_name (t : Z) :
  glob KeystoreFileName (KeystoreFileNameFormat t) = true.
Proof.
  change (glob KeystoreFileName (KeystoreFileNameFormat t))
    with (glob "*.json" (fmt_d t +:+ ".json")).
  apply glob_star_json.
Qed.

(** X1.  The pattern under which keystore files are looked up matches the
    name under which [CreateAccount] writes the keystore, whatever the
    timestamp, and matches neither the deposit data file nor the combined
    container of an import. *)
Theorem keystore_pattern_matches_written_name (t : Z) :
  glob KeystoreFileName (KeystoreFileNameFormat t) = true /\
  glob KeystoreFileName DepositDataFileName = false /\
  glob KeystoreFileName (accountsKeystoreFileName t) = false.
Proof.
  split; [| split].
  - apply glob_keystore_name.
  - reflexivity.
  - reflexivity.
Qed.

(** *** CreateAccount *)

Lemma has_keystore_write (w w' : Wallet) (accountName fileName : string) (data : bytes)
    (n : string) :
  WriteFileAtPath w accountName fileName data = Ok w' ->
  has_keystore w' n
  = (bool_decide (accountName = n) && glob KeystoreFileName fileName) || has_keystore w n.
Proof.
  intros Hw. apply WriteFileAtPath_effect in Hw as [_ Hf].
  unfold has_keystore. rewrite Hf. reflexivity.
Qed.

Lemma WriteFileAtPath_dirs (w w' : Wallet) (accountName fileName : string) (data : bytes) :
  WriteFileAtPath w accountName fileName data = Ok w' ->
  dirs w' = (if bool_decide (accountName ∈ dirs w) then dirs w else dirs w ++ [accountName]) /\
  ioFault w' = ioFault w /\ AccountsDir w' = AccountsDir w /\ Password w' = Password w.
Proof.
  unfold WriteFileAtPath. destruct (ioFault w _); [discriminate |].
  intros [= <-]. auto.
Qed.

Lemma WritePasswordToDisk_state (w w1 : Wallet) (fileName password : string) :
  WritePasswordToDisk w fileName password = Ok w1 ->
  w1 = mkWallet (AccountsDir w) (Password w) (dirs w)
         (<[fileName := password]> (passwordFiles w)) (files w) (ioFault w) /\
  ioFault w fileName = false.
Proof.
  unfold WritePasswordToDisk. destruct (ioFault w fileName); [discriminate |].
  intros [= <-]. auto.
Qed.

(** X3.  A run of [CreateAccount] that returns a name has made three writes.
    The name is the one derived from the public key of the validating key,
    and the wallet had no directory of that name.  Afterwards the wallet
    lists the new account after the accounts it had; the password is stored
    under the name with the [.pass] suffix; the newest files are the keystore
    that [generateKeystoreFile] produced, under the name with the timestamp,
    and below it the deposit data of the validating and the withdrawal key,
    as [ssz.Marshal] serialised them; every other password artifact and
    every file that was there are as before. *)
Theorem CreateAccount_success_effects (fuel : nat) (h : Host) (dr : Keymanager)
    (validatingKey withdrawalKey : SecretKey) (password accountName : string)
    (writes : list (Write * Wallet)) :
  CreateAccount fuel h dr validatingKey withdrawalKey password
    = (Some (Ok accountName), writes) ->
  let w := wallet dr in
  let w' := final_wallet w writes in
  accountName = DeterministicName (PublicKey_Marshal validatingKey) "-" /\
  (accountName ∉ dirs w) /\
  length writes = 3 /\
  dirs w' = dirs w ++ [accountName] /\
  passwordFiles w' = <[accountName +:+ PasswordFileSuffix := password]> (passwordFiles w) /\
  exists encoded depositData encodedDepositData,
    generateKeystoreFile h validatingKey password = Ok encoded /\
    GenerateDepositTransaction validatingKey withdrawalKey = Ok depositData /\
    ssz_Marshal depositData = Ok encodedDepositData /\
    files w' = (accountName, KeystoreFileNameFormat (time_Now h), encoded)
               :: (accountName, DepositDataFileName, encodedDepositData) :: files w.
Proof.
  unfold CreateAccount.
  destruct (generateAccountName _ _ _) as [[name | e] |] eqn:Hname; try discriminate.
  apply generateAccountName_unused in Hname as [Hderived Hfresh].
  destruct (WritePasswordToDisk _ _ _) as [w1 | e] eqn:Hw1; [| discriminate].
  apply WritePasswordToDisk_state in Hw1 as [-> _].
  destruct (generateKeystoreFile _ _ _) as [encoded | e]; [| discriminate].
  destruct (GenerateDepositTransaction _ _) as [depositData | e] eqn:Hdeposit;
    [| discriminate].
  destruct (ssz_Marshal _) as [encodedDepositData | e] eqn:Hssz; [| discriminate].
  destruct (WriteFileAtPath _ _ _ _) as [w2 | e] eqn:Hw2; [| discriminate].
  destruct (WriteFileAtPath w2 _ _ _) as [w3 | e] eqn:Hw3; [| discriminate].
  intros [= <- <-]. simpl.
  pose proof (WriteFileAtPath_effect _ _ _ _ _ Hw2) as [Hp2 Hf2].
  pose proof (WriteFileAtPath_effect _ _ _ _ _ Hw3) as [Hp3 Hf3].
  apply WriteFileAtPath_dirs in Hw2 as (Hd2 & _). apply WriteFileAtPath_dirs in Hw3 as (Hd3 & _).
  simpl in *. rewrite bool_decide_eq_false_2 in Hd2 by assumption.
  rewrite Hd2, bool_decide_eq_true_2 in Hd3
    by (apply elem_of_app; right; by apply list_elem_of_singleton).
  unfold final_wallet. simpl.
  split; [done |]. split; [done |]. split; [done |]. split; [done |].
  split; [by rewrite Hp3, Hp2 |].
  exists encoded, depositData, encodedDepositData.
  split; [done |]. split; [done |]. split; [done |]. by rewrite Hf3, Hf2.
Qed.

(** X4.  A run of [CreateAccount] that does not return a name (it fails, or
    its name loop does not end) has written no keystore record: in every
    state that storage goes through, the accounts with a keystore record are
    those that had one. *)
Theorem CreateAccount_failure_writes_no_keystore (fuel : nat) (h : Host) (dr : Keymanager)
    (validatingKey withdrawalKey : SecretKey) (password : string)
    (outcome : option (result string)) (writes : list (Write * Wallet)) :
  CreateAccount fuel h dr validatingKey withdrawalKey password = (outcome, writes) ->
  (forall accountName, outcome <> Some (Ok accountName)) ->
  forall step n, step ∈ writes -> has_keystore step.2 n = has_keystore (wallet dr) n.
Proof.
  unfold CreateAccount. intros Hrun Hfail.
  destruct (generateAccountName _ _ _) as [[name | e] |];
    [| injection Hrun as <- <-; intros step n Hin; step_member Hin ..].
  destruct (WritePasswordToDisk _ _ _) as [w1 | e] eqn:Hw1;
    [| injection Hrun as <- <-; intros step n Hin; step_member Hin].
  apply WritePasswordToDisk_effect in Hw1 as (_ & Hf1 & _).
  assert (Hk1 : forall n, has_keystore w1 n = has_keystore (wallet dr) n)
    by (intros n; unfold has_keystore; by rewrite Hf1).
  destruct (generateKeystoreFile _ _ _) as [encoded | e];
    [| injection Hrun as <- <-; intros step n Hin; step_member Hin; apply Hk1].
  destruct (GenerateDepositTransaction _ _) as [depositData | e];
    [| injection Hrun as <- <-; intros step n Hin; step_member Hin; apply Hk1].
  destruct (ssz_Marshal _) as [encodedDepositData | e];
    [| injection Hrun as <- <-; intros step n Hin; step_member Hin; apply Hk1].
  destruct (WriteFileAtPath w1 _ _ _) as [w2 | e] eqn:Hw2;
    [| injection Hrun as <- <-; intros step n Hin; step_member Hin; apply Hk1].
  assert (Hk2 : forall n, has_keystore w2 n = has_keystore (wallet dr) n).
  { intros n. rewrite (has_keystore_write _ _ _ _ _ n Hw2), Hk1.
    by rewrite andb_false_r. }
  destruct (WriteFileAtPath w2 _ _ _) as [w3 | e] eqn:Hw3.
  - injection Hrun as <- <-. by destruct (Hfail name).
  - injection Hrun as <- <-. intros step n Hin. step_member Hin; [apply Hk1 | apply Hk2].
Qed.

(** The storage that a successful [CreateAccount] leaves. *)
Lemma CreateAccount_final_state (fuel : nat) (h : Host) (dr : Keymanager)
    (validatingKey withdrawalKey : SecretKey) (password accountName : string)
    (writes : list (Write * Wallet)) :
  CreateAccount fuel h dr validatingKey withdrawalKey password
    = (Some (Ok accountName), writes) ->
  let w := wallet dr in
  (accountName ∉ dirs w) /\
  ioFault w (accountName +:+ ".pass") = false /\
  exists encoded encodedDepositData,
    generateKeystoreFile h validatingKey password = Ok encoded /\
    final_wallet w writes
    = mkWallet (AccountsDir w) (Password w) (dirs w ++ [accountName])
        (<[accountName +:+ ".pass" := password]> (passwordFiles w))
        ((accountName, KeystoreFileNameFormat (time_Now h), encoded)
           :: (accountName, DepositDataFileName, encodedDepositData) :: files w)
        (ioFault w).
Proof.
  unfold CreateAccount.
  destruct (generateAccountName _ _ _) as [[name | e] |] eqn:Hname; try discriminate.
  apply generateAccountName_unused in Hname as [_ Hfresh].
  destruct (WritePasswordToDisk _ _ _) as [w1 | e] eqn:Hw1; [| discriminate].
  apply WritePasswordToDisk_state in Hw1 as [-> Hio].
  destruct (generateKeystoreFile _ _ _) as [encoded | e]; [| discriminate].
  destruct (GenerateDepositTransaction _ _) as [depositData | e]; [| discriminate].
  destruct (ssz_Marshal _) as [encodedDepositData | e]; [| discriminate].
  unfold WriteFileAtPath. simpl.
  destruct (ioFault (wallet dr) (filepath_Join name DepositDataFileName)); [discriminate |].
  simpl.
  destruct (ioFault (wallet dr) (filepath_Join name (KeystoreFileNameFormat (time_Now h))));
    [discriminate |].
  intros [= <- <-]. simpl. split; [done |]. split; [done |].
  exists encoded, encodedDepositData. split; [done |].
  unfold final_wallet. simpl.
  rewrite (bool_decide_eq_false_2 (name ∈ dirs (wallet dr))) by assumption.
  rewrite bool_decide_eq_true_2
    by (apply elem_of_app; right; by apply list_elem_of_singleton).
  reflexivity.
Qed.

(** X5.  An account that [CreateAccount] has created reads back, when the
    JSON codec gives back the keystore record it encoded, the encryptor
    decrypts what it encrypted under the same password, the hex decoder
    inverts the encoder on the public key, and the key is rebuilt from its
    bytes: [keystoreForAccount] returns the record of the validating key,
    [PublicKeyForAccount] returns the key under which the cache holds it,
    [checkPasswordForAccount] accepts the password, and the account unlocks
    to the validating key as cache initialization does it. *)
Theorem created_account_reads_back (fuel : nat) (h : Host) (dr : Keymanager)
    (validatingKey withdrawalKey : SecretKey) (password accountName : string)
    (writes : list (Write * Wallet)) (cryptoFields : CryptoFields) (id : string) :
  let record :=
    mkKeystore cryptoFields id (hex_EncodeToString (PublicKey_Marshal validatingKey))
      encryptor_Version encryptor_Name in
  let dr' := mkKeymanager (final_wallet (wallet dr) writes) (cfg dr) (keysCache dr) in
  CreateAccount fuel h dr validatingKey withdrawalKey password
    = (Some (Ok accountName), writes) ->
  Encrypt (Marshal validatingKey) password = Ok cryptoFields ->
  uuid_NewRandom h = Ok id ->
  (forall encoded, json_MarshalIndent_Keystore record = Ok encoded ->
                   json_Unmarshal_Keystore encoded = Ok record) ->
  Decrypt cryptoFields password = Ok (Marshal validatingKey) ->
  hex_DecodeString (hex_EncodeToString (PublicKey_Marshal validatingKey))
    = Ok (PublicKey_Marshal validatingKey) ->
  SecretKeyFromBytes (Marshal validatingKey) = Ok validatingKey ->
  ioFault (wallet dr) (filepath_Join accountName KeystoreFileName) = false ->
  keystoreForAccount dr' accountName = Ok record /\
  PublicKeyForAccount dr' accountName = Ok (cache_key validatingKey) /\
  checkPasswordForAccount dr' accountName password = Ok tt /\
  unlockAccount (wallet dr') accountName = Ok validatingKey.
Proof.
  intros record dr' Hrun Henc Hid Hjson Hdec Hhex Hsk Hio.
  apply CreateAccount_final_state in Hrun
    as (_ & Hiop & encoded & deposit & Hgen & Hfinal).
  unfold generateKeystoreFile in Hgen. rewrite Henc, Hid in Hgen. simpl in Hgen.
  apply Hjson in Hgen.
  assert (Hread : ReadFileAtPath (final_wallet (wallet dr) writes) accountName
                    KeystoreFileName = Ok encoded).
  { rewrite Hfinal. unfold ReadFileAtPath. simpl. rewrite Hio.
    unfold file_matches. simpl. rewrite bool_decide_eq_true_2 by reflexivity.
    by rewrite glob_keystore_name. }
  assert (Hpass : ReadPasswordFromDisk (final_wallet (wallet dr) writes)
                    (accountName +:+ PasswordFileSuffix) = Ok password).
  { rewrite Hfinal. unfold ReadPasswordFromDisk, PasswordFileSuffix.
    simpl. rewrite Hiop. by rewrite lookup_insert_eq. }
  assert (Hks : keystoreForAccount dr' accountName = Ok record)
    by (unfold keystoreForAccount, dr'; cbn [wallet]; rewrite Hread; simpl;
        by rewrite Hgen).
  split; [exact Hks |]. split; [| split].
  - unfold PublicKeyForAccount. rewrite Hks. simpl. by rewrite Hhex.
  - unfold checkPasswordForAccount. rewrite Hks. simpl. by rewrite Hdec.
  - unfold unlockAccount, dr'. cbn [wallet]. rewrite Hpass. simpl. rewrite Hread. simpl.
    rewrite Hgen. simpl. rewrite Hdec. simpl. by rewrite Hsk.
Qed.

(** X15.  A name that [CreateAccount] has handed out is not handed out
    again: on the storage that a successful run leaves, a run with a key
    that derives the same name (the same key, or one with the same pet name)
    does not return, however many rounds its name loop is given, and writes
    nothing. *)
Theorem CreateAccount_does_not_reuse_name (fuel fuel' : nat) (h h' : Host)
    (dr : Keymanager) (validatingKey withdrawalKey validatingKey' withdrawalKey' : SecretKey)
    (password password' accountName : string) (writes : list (Write * Wallet)) :
  CreateAccount fuel h dr validatingKey withdrawalKey password
    = (Some (Ok accountName), writes) ->
  DeterministicName (PublicKey_Marshal validatingKey') "-" = accountName ->
  CreateAccount fuel' h'
    (mkKeymanager (final_wallet (wallet dr) writes) (cfg dr) (keysCache dr))
    validatingKey' withdrawalKey' password'
  = (None, []).
Proof.
  intros Hrun Hname.
  apply CreateAccount_final_state in Hrun as (_ & _ & encoded & deposit & _ & Hfinal).
  unfold CreateAccount. cbn [wallet].
  rewrite generateAccountName_taken; [reflexivity |].
  rewrite Hfinal, Hname. simpl. apply elem_of_app. right. by apply list_elem_of_singleton.
Qed.

(** *** Passwords and public keys of stored accounts *)

(** X6.  An account that cache initialization unlocks has a password
    artifact that [checkPasswordForAccount] accepts, and the secret key it
    unlocks to is built from what the keystore record of the account
    decrypts to under that password. *)
Theorem unlocked_account_passes_password_check (dr : Keymanager) (name : string)
    (sk : SecretKey) :
  unlockAccount (wallet dr) name = Ok sk ->
  exists password accountKeystore rawSigningKey,
    ReadPasswordFromDisk (wallet dr) (name +:+ PasswordFileSuffix) = Ok password /\
    keystoreForAccount dr name = Ok accountKeystore /\
    Decrypt (Crypto accountKeystore) password = Ok rawSigningKey /\
    SecretKeyFromBytes rawSigningKey = Ok sk /\
    checkPasswordForAccount dr name password = Ok tt.
Proof.
  unfold unlockAccount, checkPasswordForAccount, keystoreForAccount.
  destruct (ReadPasswordFromDisk _ _) as [password | e]; [| discriminate]. simpl.
  destruct (ReadFileAtPath _ _ _) as [encoded | e]; [| discriminate]. simpl.
  destruct (json_Unmarshal_Keystore encoded) as [accountKeystore | e]; [| discriminate].
  simpl.
  destruct (Decrypt (Crypto accountKeystore) password) as [rawSigningKey | e] eqn:Hd;
    [| discriminate].
  simpl.
  destruct (SecretKeyFromBytes rawSigningKey) as [sk' | e] eqn:Hsk; [| discriminate].
  intros [= <-]. exists password, accountKeystore, rawSigningKey.
  rewrite Hd. auto.
Qed.

Lemma stored_pubkeys_Forall2 (w : Wallet) (names : list string) :
  forall keys, stored_pubkeys w names = Ok keys <->
               Forall2 (fun name key => stored_pubkey w name = Ok key) names keys.
Proof.
  induction names as [| name names IH]; intros keys; simpl.
  - split.
    + intros [= <-]. constructor.
    + intros Hall. by apply Forall2_nil_inv_l in Hall as ->.
  - split.
    + destruct (stored_pubkey w name) as [key | e] eqn:Hkey; [| discriminate]. simpl.
      destruct (stored_pubkeys w names) as [keys' | e] eqn:Hkeys; [| discriminate].
      intros [= <-]. constructor; [done |]. by apply IH.
    + intros Hall. apply Forall2_cons_inv_l in Hall as (key & keys' & Hkey & Hrest & ->).
      rewrite Hkey. simpl. apply IH in Hrest. by rewrite Hrest.
Qed.

(** X7.  When [FetchValidatingPublicKeys] succeeds it returns one key for
    every account name that the wallet lists, each of 48 bytes, provided the
    keys of the cache are derived public keys. *)
Theorem FetchValidatingPublicKeys_one_key_per_account (dr : Keymanager)
    (accountNames : list string) (keys : list bytes) :
  cache_derived (keysCache dr) ->
  ValidatingAccountNames dr = Ok accountNames ->
  FetchValidatingPublicKeys dr = Ok keys ->
  length keys = length accountNames /\ Forall (fun key => length key = 48) keys.
Proof.
  intros Hc Hnames. unfold FetchValidatingPublicKeys. rewrite Hnames. simpl.
  case_bool_decide as Hsize.
  - pose proof (fetchFromCache_fill (map_range (keysCache dr)) []
                  (replicate (length accountNames) (replicate 48 x00))) as Hfill.
    simpl in Hfill. rewrite Hfill by (rewrite length_replicate, map_range_length; lia).
    rewrite drop_ge by (rewrite length_replicate, map_range_length; lia).
    rewrite app_nil_r. intros [= <-]. split.
    + by rewrite length_fmap, map_range_length.
    + apply Forall_fmap, Forall_forall. intros [key sk] Hin. simpl.
      rewrite (map_range_perm (keysCache dr)) in Hin.
      apply elem_of_map_to_list in Hin. by apply Hc in Hin as [_ Hlen].
  - pose proof (fetchFromStorage_fill (wallet dr) accountNames []
                  (replicate (length accountNames) (replicate 48 x00))) as Hfill.
    simpl in Hfill. rewrite Hfill by (rewrite length_replicate; lia).
    destruct (stored_pubkeys (wallet dr) accountNames) as [keys' | e] eqn:Hkeys;
      [| discriminate].
    simpl. rewrite drop_ge by (rewrite length_replicate; lia). rewrite app_nil_r.
    intros [= <-]. apply stored_pubkeys_Forall2 in Hkeys. split.
    + symmetry. by eapply Forall2_length.
    + clear Hsize Hfill Hnames.
      induction Hkeys as [| name key names keys' Hkey _ IH]; [constructor |].
      constructor; [| assumption].
      unfold stored_pubkey in Hkey.
      destruct (Wrap (ReadFileAtPath _ _ _) _); simpl in Hkey; [| discriminate].
      destruct (Wrap (json_Unmarshal_Keystore _) _); simpl in Hkey; [| discriminate].
      destruct (Wrap (hex_DecodeString _) _); simpl in Hkey; [| discriminate].
      injection Hkey as <-. apply ToBytes48_length.
Qed.

(** *** Initialization of the cache *)

Lemma scatterLoop_unlocks_prefix (w : Wallet) (names : list string) (sks : list SecretKey) :
  Forall2 (fun name sk => unlockAccount w name = Ok sk) names sks ->
  forall (done rest : list string) (cache : gmap bytes SecretKey),
    scatterLoop w (done ++ names ++ rest) (length done) (length names) cache
    = (foldl insert_key cache sks, Ok tt).
Proof.
  induction 1 as [| name sk names sks Hu _ IH]; intros done rest cache; simpl;
    [reflexivity |].
  rewrite list_lookup_middle by reflexivity. rewrite Hu.
  replace (done ++ name :: names ++ rest) with ((done ++ [name]) ++ names ++ rest)
    by (by rewrite <- app_assoc).
  replace (S (length done)) with (length (done ++ [name]))
    by (rewrite length_app; simpl; lia).
  apply IH.
Qed.

Lemma scatterLoop_locked (w : Wallet) (pre : list string) (sks : list SecretKey)
    (bad : string) (e : string) :
  Forall2 (fun name sk => unlockAccount w name = Ok sk) pre sks ->
  unlockAccount w bad = Err e ->
  forall (done post : list string) (n : nat) (cache : gmap bytes SecretKey),
    scatterLoop w (done ++ pre ++ bad :: post) (length done) (length pre + S n) cache
    = (foldl insert_key cache sks, Err e).
Proof.
  intros Hpre Hbad.
  induction Hpre as [| name sk names sks Hu _ IH]; intros done post n cache; simpl.
  - rewrite list_lookup_middle by reflexivity. by rewrite Hbad.
  - rewrite list_lookup_middle by reflexivity. rewrite Hu.
    replace (done ++ name :: names ++ bad :: post)
      with ((done ++ [name]) ++ names ++ bad :: post) by (by rewrite <- app_assoc).
    replace (S (length done)) with (length (done ++ [name]))
      by (rewrite length_app; simpl; lia).
    apply IH.
Qed.

(** The loop over the first [entries] accounts of a list that all unlock. *)
Lemma scatterLoop_take (w : Wallet) (names : list string) (sks : list SecretKey)
    (entries : nat) (cache : gmap bytes SecretKey) :
  Forall2 (fun name sk => unlockAccount w name = Ok sk) names sks ->
  entries <= length names ->
  scatterLoop w names 0 entries cache = (foldl insert_key cache (take entries sks), Ok tt).
Proof.
  intros Hall Hle.
  pose proof (scatterLoop_unlocks_prefix w (take entries names) (take entries sks)
                (Forall2_take _ _ _ entries Hall) [] (drop entries names) cache) as Hloop.
  simpl in Hloop. rewrite take_drop, length_take in Hloop.
  by replace (entries `min` length names) with entries in Hloop by lia.
Qed.

(** Inserting again the keys of a prefix of what was inserted changes
    nothing, the public keys being all different. *)
Lemma foldl_insert_key_again (sks : list SecretKey) (c e : nat)
    (cache : gmap bytes SecretKey) :
  NoDup ((fun sk => ToBytes48 (PublicKey_Marshal sk)) <$> sks) ->
  e <= c ->
  foldl insert_key (foldl insert_key cache (take c sks)) (take e sks)
  = foldl insert_key cache (take c sks).
Proof.
  intros Hnd Hle.
  assert (Hnd' : forall n, NoDup ((fun sk => ToBytes48 (PublicKey_Marshal sk)) <$> take n sks)).
  { intros n. rewrite fmap_take. eapply sublist_NoDup; [exact Hnd | apply sublist_take]. }
  apply map_eq. intros key.
  destruct (decide (key ∈ (fun sk => ToBytes48 (PublicKey_Marshal sk)) <$> take e sks))
    as [Hin | Hout].
  - apply list_elem_of_fmap in Hin as (sk & -> & Hin).
    rewrite !foldl_insert_key_lookup; [done | apply Hnd' | | apply Hnd' | done].
    apply elem_of_take in Hin as (i & Hi & Hlt). apply elem_of_take. exists i. split; [done | lia].
  - by rewrite foldl_insert_key_other.
Qed.

Lemma scatter_shards_bounds (chunkSize inputLen : nat) :
  0 < chunkSize ->
  Forall (fun shard => shard.1 + shard.2 <= inputLen /\ shard.2 <= chunkSize)
    (scatter_shards chunkSize inputLen).
Proof.
  intros Hc. unfold scatter_shards. apply Forall_fmap, Forall_forall.
  intros worker Hw. simpl. apply elem_of_seq in Hw as [_ Hw]. simpl in Hw.
  assert (Hworker : worker <= inputLen / chunkSize)
    by (destruct (Nat.eqb _ 0) eqn:Hm;
        [pose proof (Nat.div_str_pos inputLen chunkSize) | ]; lia).
  pose proof (Nat.Div0.mul_div_le inputLen chunkSize) as Hdiv.
  assert (worker * chunkSize <= inputLen) by nia. lia.
Qed.

Lemma scatter_shards_head (chunkSize inputLen : nat) :
  0 < chunkSize <= inputLen ->
  exists rest, scatter_shards chunkSize inputLen = (0, chunkSize) :: rest.
Proof.
  intros [Hc Hn]. unfold scatter_shards.
  assert (Hdiv : 0 < inputLen / chunkSize) by (apply Nat.div_str_pos; lia).
  destruct (if Nat.eqb (inputLen mod chunkSize) 0 then inputLen / chunkSize
            else S (inputLen / chunkSize)) as [| workers] eqn:Hw.
  - destruct (Nat.eqb _ 0); lia.
  - simpl. rewrite Nat.sub_0_r, Nat.min_l by lia. eauto.
Qed.

(** The cache and the result of [NewKeymanager] with shards of [chunkSize]
    accounts, over accounts that all unlock to keys with different public
    keys. *)
Lemma NewKeymanager_sharded (chunkSize : nat) (w : Wallet) (c : Config)
    (names : list string) (sks : list SecretKey) :
  ListDirs w = Ok names ->
  Forall2 (fun name sk => unlockAccount w name = Ok sk) names sks ->
  NoDup ((fun sk => ToBytes48 (PublicKey_Marshal sk)) <$> sks) ->
  0 < chunkSize <= length names ->
  NewKeymanager chunkSize w c
  = Ok (mkKeymanager w c (foldl insert_key ∅ (take chunkSize sks))).
Proof.
  intros Hls Hall Hnd [Hc Hn].
  unfold NewKeymanager, initializeSecretKeysCache, ValidatingAccountNames. simpl.
  rewrite Hls. destruct (Nat.eqb_spec (length names) 0) as [Hz | _]; [lia |].
  unfold Scatter.
  destruct (scatter_shards_head chunkSize (length names)) as [rest Hshards]; [lia |].
  pose proof (scatter_shards_bounds chunkSize (length names) Hc) as Hbounds.
  rewrite Hshards in *. apply Forall_cons in Hbounds as [_ Hrest].
  cbn [scatter_run]. rewrite scatterFunc_ignores_offset by lia.
  rewrite (scatterLoop_take w names sks chunkSize ∅ Hall Hn).
  assert (Hstable : scatter_run rest (scatterFunc w names)
                      (foldl insert_key ∅ (take chunkSize sks))
                    = (foldl insert_key ∅ (take chunkSize sks), Ok tt)).
  { clear Hshards.
    induction Hrest as [| [offset entries] rest [Hin Hle] _ IH]; [reflexivity |].
    simpl in Hin, Hle. cbn [scatter_run].
    rewrite scatterFunc_ignores_offset by lia.
    rewrite (scatterLoop_take w names sks entries _ Hall) by lia.
    rewrite foldl_insert_key_again by assumption.
    by rewrite IH. }
  by rewrite Hstable.
Qed.

(** X9.  With shards of [chunkSize] accounts, for any [chunkSize] from one
    to the number of accounts, over accounts that all unlock to keys with
    different public keys: [NewKeymanager] succeeds, and its cache holds the
    first [chunkSize] accounts of the list and no others.  [Sign] returns
    the signature for the public keys of those, and the not-found error for
    the public keys of the accounts after them.  (With [chunkSize] the
    number of accounts this is every account.) *)
Theorem sharded_initialization_loads_first_shard (chunkSize : nat) (w : Wallet)
    (c : Config) (names : list string) (sks : list SecretKey) :
  ListDirs w = Ok names ->
  Forall2 (fun name sk => unlockAccount w name = Ok sk) names sks ->
  NoDup ((fun sk => ToBytes48 (PublicKey_Marshal sk)) <$> sks) ->
  0 < chunkSize <= length names ->
  exists k,
    NewKeymanager chunkSize w c = Ok k /\
    size (keysCache k) = chunkSize /\
    (forall sk root, sk ∈ take chunkSize sks ->
       Sign k (mkSignRequest (Some (cache_key sk)) root) = Ok (SecretKey_Sign sk root)) /\
    (forall sk root, sk ∈ drop chunkSize sks ->
       Sign k (mkSignRequest (Some (cache_key sk)) root)
       = Err "no signing key found in keys cache").
Proof.
  intros Hls Hall Hnd Hc.
  pose proof (Forall2_length _ _ _ Hall) as Hlen.
  rewrite (NewKeymanager_sharded chunkSize w c names sks Hls Hall Hnd Hc).
  eexists. split; [reflexivity |]. simpl.
  assert (Hsplit : NoDup ((fun sk => ToBytes48 (PublicKey_Marshal sk)) <$>
                          (take chunkSize sks ++ drop chunkSize sks)))
    by (by rewrite take_drop).
  rewrite fmap_app in Hsplit. apply NoDup_app in Hsplit as (Hnd1 & Hdisjoint & _).
  split; [| split].
  - rewrite foldl_insert_key_size; [| assumption | intros sk _; apply lookup_empty].
    rewrite map_size_empty, length_take. lia.
  - intros sk root Hin. unfold Sign, cache_key. simpl.
    rewrite ToBytes48_id by apply ToBytes48_length.
    by rewrite foldl_insert_key_lookup.
  - intros sk root Hin. unfold Sign, cache_key. simpl.
    rewrite ToBytes48_id by apply ToBytes48_length.
    rewrite foldl_insert_key_other; [by rewrite lookup_empty |].
    intros Hkey. apply (Hdisjoint _ Hkey). apply list_elem_of_fmap. by exists sk.
Qed.

(** X10.  With a single shard, initialization stops at the first account
    that does not unlock: [NewKeymanager] returns no keymanager but the error
    of that account (which names the account), under the message of the
    constructor. *)
Theorem NewKeymanager_fails_at_first_locked_account (w : Wallet) (c : Config)
    (pre : list string) (sks : list SecretKey) (bad : string) (post : list string)
    (e : string) :
  ListDirs w = Ok (pre ++ bad :: post) ->
  Forall2 (fun name sk => unlockAccount w name = Ok sk) pre sks ->
  unlockAccount w bad = Err e ->
  NewKeymanager (length (pre ++ bad :: post)) w c
  = Err ("could not initialize keys cache: " +:+ e).
Proof.
  intros Hls Hpre Hbad.
  unfold NewKeymanager, initializeSecretKeysCache, ValidatingAccountNames. simpl.
  rewrite Hls.
  assert (Hpos : 0 < length (pre ++ bad :: post)) by (rewrite length_app; simpl; lia).
  destruct (Nat.eqb_spec (length (pre ++ bad :: post)) 0) as [Hz | _]; [lia |].
  unfold Scatter. rewrite scatter_shards_single by assumption.
  cbn [scatter_run]. rewrite scatterFunc_ignores_offset by lia.
  pose proof (scatterLoop_locked w pre sks bad e Hpre Hbad [] post (length post) ∅)
    as Hloop.
  simpl in Hloop.
  replace (length (pre ++ bad :: post)) with (length pre + S (length post))
    by (rewrite length_app; simpl; lia).
  by rewrite Hloop.
Qed.

(** X11.  With a single shard the cache does not depend on the order in which
    the wallet lists its accounts: two wallets that list the same accounts in
    different orders, and in which every account unlocks to the same key,
    the public keys being all different, get the same cache. *)
Theorem single_shard_initialization_order_independent (w w' : Wallet) (c : Config)
    (names names' : list string) (key_of : string -> SecretKey) :
  ListDirs w = Ok names ->
  ListDirs w' = Ok names' ->
  names ≡ₚ names' ->
  (forall name, name ∈ names ->
     unlockAccount w name = Ok (key_of name) /\ unlockAccount w' name = Ok (key_of name)) ->
  NoDup ((fun name => cache_key (key_of name)) <$> names) ->
  exists k k',
    NewKeymanager (length names) w c = Ok k /\
    NewKeymanager (length names') w' c = Ok k' /\
    keysCache k = keysCache k'.
Proof.
  intros Hls Hls' Hperm Hunlock Hnd.
  assert (Hall : Forall2 (fun name sk => unlockAccount w name = Ok sk)
                   names (key_of <$> names)).
  { apply Forall2_fmap_r, Forall_Forall2_diag, Forall_forall.
    intros name Hin. by apply Hunlock. }
  assert (Hall' : Forall2 (fun name sk => unlockAccount w' name = Ok sk)
                    names' (key_of <$> names')).
  { apply Forall2_fmap_r, Forall_Forall2_diag, Forall_forall.
    intros name Hin. apply Hunlock. by rewrite Hperm. }
  assert (Hkeys : NoDup ((fun sk => ToBytes48 (PublicKey_Marshal sk)) <$> (key_of <$> names)))
    by (by rewrite <- list_fmap_compose).
  assert (Hkeys' : NoDup ((fun sk => ToBytes48 (PublicKey_Marshal sk)) <$> (key_of <$> names')))
    by (by rewrite <- Hperm).
  destruct names as [| name names].
  - apply Permutation_nil_l in Hperm as <-.
    exists (mkKeymanager w c ∅), (mkKeymanager w' c ∅).
    unfold NewKeymanager, initializeSecretKeysCache, ValidatingAccountNames. simpl.
    by rewrite Hls, Hls'.
  - assert (Hlen : length names' = length (name :: names)) by (by rewrite Hperm).
    eexists _, _. split; [| split].
    + apply (NewKeymanager_sharded _ _ _ _ _ Hls Hall Hkeys). simpl. lia.
    + apply (NewKeymanager_sharded _ _ _ _ _ Hls' Hall' Hkeys'). simpl in *. lia.
    + cbn [keysCache]. rewrite !take_ge by (rewrite length_fmap; lia).
      apply single_shard_order_independent; [exact Hkeys | by rewrite Hperm].
Qed.

(** *** ImportKeystores *)

Lemma writeAccountsKeystore_effect (h : Host) (dr : Keymanager)
    (privKeys pubKeys : list bytes) (w' : Wallet) :
  writeAccountsKeystore h dr privKeys pubKeys = Ok w' ->
  passwordFiles w' = passwordFiles (wallet dr) /\
  exists encodedAccounts,
    files w' = (accountsPath, accountsKeystoreFileName (time_Now h), encodedAccounts)
               :: files (wallet dr).
Proof.
  unfold writeAccountsKeystore.
  destruct (createAccountsKeystore h dr privKeys pubKeys) as [accountsKeystore | e];
    [| discriminate].
  simpl. destruct (json_MarshalIndent_Keystore accountsKeystore) as [encoded | e];
    [| discriminate].
  simpl. intros Hw. apply WriteFileAtPath_effect in Hw as [Hp Hf]. eauto.
Qed.

(** X12.  [ImportKeystores] writes one file or nothing.  When it returns an
    error, storage is what it was.  When it succeeds, storage has one more
    file, the combined container under the accounts path and under the
    name with the timestamp, and the password artifacts are untouched.  With
    a password file, it asks nothing at the console. *)
Theorem ImportKeystores_writes_one_file_or_nothing (h : Host) (dr : Keymanager)
    (cliCtx : CliContext) (keystores : list (Keystore CryptoFields)) (c : Console) :
  let out := ImportKeystores h dr cliCtx keystores c in
  match out.1.1 with
  | Err _ => out.1.2 = wallet dr
  | Ok _ =>
      passwordFiles out.1.2 = passwordFiles (wallet dr) /\
      exists encodedAccounts,
        files out.1.2
        = (accountsPath, accountsKeystoreFileName (time_Now h), encodedAccounts)
          :: files (wallet dr)
  end /\
  (is_Some (AccountPasswordFile cliCtx) -> out.2 = c).
Proof.
  unfold ImportKeystores.
  destruct (AccountPasswordFile cliCtx) as [passwordFilePath |].
  - destruct (ioutil_ReadFile h passwordFilePath) as [data | e]; simpl; [| done].
    destruct (importWithPasswordFile _ _ _ _ _) as [keys | e]; simpl; [| done].
    destruct (writeAccountsKeystore h dr keys.1 keys.2) as [w' | e] eqn:Hw; simpl; [| done].
    split; [| done]. by apply writeAccountsKeystore_effect in Hw.
  - destruct (PasswordPrompt _ c) as [[password | e] c0]; simpl;
      [| split; [done | by intros [? ?]]].
    destruct (importWithPrompt _ _ _ _ _ _ _) as [[keys | e] c1]; simpl;
      [| split; [done | by intros [? ?]]].
    destruct (writeAccountsKeystore h dr keys.1 keys.2) as [w' | e] eqn:Hw; simpl;
      [| split; [done | by intros [? ?]]].
    split; [| by intros [? ?]]. by apply writeAccountsKeystore_effect in Hw.
Qed.

Lemma importWithPrompt_accepted (h : Host) (password : string)
    (keystores : list (Keystore CryptoFields)) :
  Forall (fun k => is_Ok (Decrypt (Crypto k) password) = true) keystores ->
  (forall i, is_Ok (bar_Add h i) = true) ->
  forall i c privKeys pubKeys,
    importWithPrompt h password keystores i c privKeys pubKeys
    = (Ok (privKeys, pubKeys), c).
Proof.
  intros Hall Hbar. induction Hall as [| k rest Hk _ IH]; intros i c p q; simpl;
    [reflexivity |].
  destruct (Decrypt (Crypto k) password); [| discriminate].
  specialize (Hbar i). destruct (bar_Add h i); [| discriminate]. apply IH.
Qed.

(** X13.  In the interactive branch, when the password of the first prompt
    decrypts every record (and the progress bar does not fail), the import
    asks nothing more and stores no key: what it writes is the store of an
    empty private key and an empty public key for every record. *)
Theorem prompted_import_of_accepted_records_stores_no_keys (h : Host) (dr : Keymanager)
    (keystores : list (Keystore CryptoFields)) (c c0 : Console) (password : string) :
  PasswordPrompt "Enter the password for your imported accounts" c = (Ok password, c0) ->
  Forall (fun k => is_Ok (Decrypt (Crypto k) password) = true) keystores ->
  (forall i, is_Ok (bar_Add h i) = true) ->
  let blank := replicate (length keystores) [] in
  ImportKeystores h dr (mkCliContext None) keystores c
  = match writeAccountsKeystore h dr blank blank with
    | Err e => (Err e, wallet dr, c0)
    | Ok w' => (Ok tt, w', c0)
    end.
Proof.
  intros Hprompt Hall Hbar blank. unfold ImportKeystores. simpl. rewrite Hprompt.
  by rewrite (importWithPrompt_accepted h password keystores Hall Hbar).
Qed.

Lemma askUntilPasswordConfirms_loop_success (k : Keystore CryptoFields) (pubKey : string)
    (script : list (result string)) :
  forall asked secret c1,
    askUntilPasswordConfirms_loop k pubKey script asked = (Ok secret, c1) ->
    exists rejected password,
      script = rejected ++ Ok password :: answers c1 /\
      Forall (fun a => wrong_password k a = true) rejected /\
      Decrypt (Crypto k) password = Ok secret /\
      prompts c1 = asked ++ replicate (S (length rejected)) (prompt_for pubKey).
Proof.
  induction script as [| a script IH]; intros asked secret c1; simpl; [discriminate |].
  destruct a as [password | e]; [| discriminate].
  destruct (Decrypt (Crypto k) password) as [secret' | e] eqn:Hd.
  - intros [= <- <-]. exists [], password. simpl. auto.
  - destruct (invalid_checksum e) eqn:Hinv; [| discriminate].
    intros Hloop. apply IH in Hloop as (rejected & p & -> & Hrej & Hp & Hprompts).
    exists (Ok password :: rejected), p. split; [done |]. split; [| split; [done |]].
    + constructor; [| done]. simpl. by rewrite Hd.
    + rewrite Hprompts, <- app_assoc. reflexivity.
Qed.

(** X14.  When the prompt loop returns a secret, the answers it has taken
    from the console are, in order, answers that the decryptor rejected for
    their checksum and then the password that decrypts the record to that
    secret; it has asked once for each of them, under the public key of
    the record, and the answers after them are left. *)
Theorem askUntilPasswordConfirms_success (k : Keystore CryptoFields) (pubKey : string)
    (c c1 : Console) (secret : bytes) :
  askUntilPasswordConfirms k pubKey c = (Ok secret, c1) ->
  exists rejected password,
    answers c = rejected ++ Ok password :: answers c1 /\
    Forall (fun a => wrong_password k a = true) rejected /\
    Decrypt (Crypto k) password = Ok secret /\
    prompts c1 = prompts c ++ replicate (S (length rejected)) (prompt_for pubKey).
Proof.
  unfold askUntilPasswordConfirms. intros Hloop.
  apply askUntilPasswordConfirms_loop_success in Hloop
    as (rejected & password & Hscript & Hrej & Hd & Hp).
  exists rejected, password. auto.
Qed.

End Further.

(** ** The properties on the concrete instance *)

Section Examples.
Import Demo.

(** The two accounts of the fixtures are valid, with different public keys. *)
Lemma two_accounts_valid :
  unlockAccount alpha_beta "alpha" = Ok sk1 /\
  unlockAccount alpha_beta "beta" = Ok sk2 /\
  ToBytes48 pk1 <> ToBytes48 pk2.
Proof. repeat split; [vm_compute; reflexivity .. | vm_compute; discriminate]. Qed.

(** With one shard, the cache is complete. *)
Lemma one_shard_loads_both_accounts :
  match NewKeymanager 2 alpha_beta demo_cfg with
  | Ok k =>
      size (keysCache k) = 2 /\
      Sign k (mkSignRequest (Some pk1) []) = Ok (SecretKey_Sign sk1 []) /\
      Sign k (mkSignRequest (Some pk2) []) = Ok (SecretKey_Sign sk2 [])
  | Err _ => False
  end.
Proof. vm_compute. repeat split. Qed.

(** C1, the code at a failing input.  Two valid accounts, shards of one
    account each: the worker of every shard reads [accountNames[i]] from
    index 0 instead of [accountNames[offset+i]], so both shards load the
    first account.  Initialization succeeds, the cache holds one entry
    instead of two, and [Sign] for the public key of the second account
    fails with the not-found error. *)
Theorem two_shards_load_one_account :
  scatter_shards 1 2 = [(0, 1); (1, 1)] /\
  match NewKeymanager 1 alpha_beta demo_cfg with
  | Ok k =>
      size (keysCache k) = 1 /\
      Sign k (mkSignRequest (Some pk1) []) = Ok (SecretKey_Sign sk1 []) /\
      Sign k (mkSignRequest (Some pk2) []) = Err "no signing key found in keys cache"
  | Err _ => False
  end.
Proof. split; [reflexivity |]. vm_compute. repeat split. Qed.

(** C2, the code at a failing input.  The same two accounts listed in the
    two orders, shards of one account each: each run loads only the account
    listed first, so the two caches differ. *)
Theorem two_shards_depend_on_order :
  alpha_beta = two_accounts ["alpha"; "beta"] /\
  beta_alpha = two_accounts ["beta"; "alpha"] /\
  match NewKeymanager 1 alpha_beta demo_cfg, NewKeymanager 1 beta_alpha demo_cfg with
  | Ok k, Ok k' =>
      keysCache k !! ToBytes48 pk1 = Some sk1 /\ keysCache k !! ToBytes48 pk2 = None /\
      keysCache k' !! ToBytes48 pk1 = None /\ keysCache k' !! ToBytes48 pk2 = Some sk2 /\
      keysCache k <> keysCache k'
  | _, _ => False
  end.
Proof.
  split; [reflexivity |]. split; [reflexivity |].
  destruct (NewKeymanager 1 alpha_beta demo_cfg) as [k | e] eqn:Hk;
    [| by vm_compute in Hk].
  destruct (NewKeymanager 1 beta_alpha demo_cfg) as [k' | e] eqn:Hk';
    [| by vm_compute in Hk'].
  assert (H1 : keysCache k !! ToBytes48 pk1 = Some sk1)
    by (vm_compute in Hk; injection Hk as <-; vm_compute; reflexivity).
  assert (H2 : keysCache k !! ToBytes48 pk2 = None)
    by (vm_compute in Hk; injection Hk as <-; vm_compute; reflexivity).
  assert (H3 : keysCache k' !! ToBytes48 pk1 = None)
    by (vm_compute in Hk'; injection Hk' as <-; vm_compute; reflexivity).
  assert (H4 : keysCache k' !! ToBytes48 pk2 = Some sk2)
    by (vm_compute in Hk'; injection Hk' as <-; vm_compute; reflexivity).
  repeat split; try assumption.
  intros Heq. rewrite Heq, H3 in H1. discriminate.
Qed.

(** C3, the code at a failing input.  One record that the password entered
    at the first prompt decrypts: the interactive branch throws the
    decrypted key away and stores nothing at the index of the record, so the
    container that is written holds an empty private key and an empty public
    key.  The branch with a password file stores the pair of the same
    record. *)
Theorem prompted_import_drops_accepted_keys :
  imported_pair "shared-pw" record1 = Some (sk1, pk1) /\
  match ImportKeystores demo_host fresh_km at_prompt [record1]
          (mkConsole [Ok "shared-pw"] []) with
  | (Ok _, w', _) => read_container w' "wallet-pw" = Ok (mkAccountStore [[]] [[]])
  | _ => False
  end /\
  match ImportKeystores demo_host fresh_km with_file [record1] (mkConsole [] []) with
  | (Ok _, w', _) => read_container w' "wallet-pw" = Ok (mkAccountStore [sk1] [pk1])
  | _ => False
  end.
Proof. repeat split; vm_compute; reflexivity. Qed.



(** C5 on three records, the second of which is locked with another
    password. *)
Lemma shared_password_import_aborts_witness :
  ImportKeystores demo_host fresh_km with_file ([record1] ++ record2 :: [record1])
    (mkConsole [] [])
  = (Err ("invalid password for account with public key " +:+ Pubkey record2),
     wallet fresh_km, mkConsole [] []).
Proof.
  refine (proj1 (shared_password_import_aborts demo_host fresh_km "/tmp/password.txt"
                   (bytes_of_string "shared-pw") [record1] record2 [record1]
                   (mkConsole [] []) _ _ _ _)).
  - reflexivity.
  - repeat constructor.
  - vm_compute. reflexivity.
Defined.

(** C6, the code at a failing input.  In a wallet that has a directory of
    the name derived from the public key, [generateAccountName] asks for the
    same name in every round (the name is a function of the public key
    alone, there is no counter) and returns after no number of rounds;
    in the empty wallet it returns the name in the first round. *)
Theorem generateAccountName_never_returns :
  DeterministicName pk1 "-" ∈ dirs taken_wallet /\
  (forall fuel, generateAccountName fuel taken_wallet pk1 = None) /\
  generateAccountName 1 empty_wallet pk1 = Some (Ok (DeterministicName pk1 "-")).
Proof.
  split; [by left |]. split; [| vm_compute; reflexivity].
  apply generateAccountName_taken. by left.
Qed.

(** C7 on the creation of an account in the empty wallet. *)
Lemma CreateAccount_password_before_keystore_witness :
  let run := CreateAccount 1 demo_host fresh_km sk1 sk2 "pw" in
  run.1 = Some (Ok "account-8001") /\
  length run.2 = 3 /\
  forall step, step ∈ run.2 -> password_before_keystore step.2.
Proof.
  intros run. split; [vm_compute; reflexivity |]. split; [vm_compute; reflexivity |].
  refine (proj1 (CreateAccount_password_before_keystore 1 demo_host fresh_km sk1 sk2 "pw" _)).
  intros name Hk. vm_compute in Hk. discriminate.
Defined.

(** C8, the claim as stated fails.  It is not so that for a non-empty
    public key [Sign] fails with the not-found error exactly when the key is
    absent from the cache: the 49 bytes made of the public key of [beta]
    and one more byte are the key of no entry of the loaded cache, and [Sign]
    returns for them the signature under the secret key of [beta]. *)
Lemma Sign_finds_key_by_its_first_48_bytes :
  ~ (forall (dr : @Keymanager bytes) (pk root : bytes),
       pk <> [] ->
       (Sign dr (mkSignRequest (Some pk) root) = Err "no signing key found in keys cache"
        <-> keysCache dr !! pk = None)).
Proof.
  intros Hclaim.
  destruct (Hclaim demo_km (pk2 ++ [x00]) [x2a]) as [_ Hfails]; [discriminate |].
  assert (Habsent : keysCache demo_km !! (pk2 ++ [x00]) = None)
    by (vm_compute; reflexivity).
  apply Hfails in Habsent. vm_compute in Habsent. discriminate.
Qed.

(** The amended C8 on the loaded cache of the two accounts. *)
Lemma Sign_outcomes_witness :
  Sign demo_km (mkSignRequest (Some pk2) [x2a]) = Ok (SecretKey_Sign sk2 [x2a]) /\
  Sign demo_km (mkSignRequest (Some (pk2 ++ [x00])) [x2a])
  = Sign demo_km (mkSignRequest (Some pk2) [x2a]) /\
  Sign demo_km (mkSignRequest (Some []) [x2a]) = Err "no signing key found in keys cache".
Proof.
  assert (Hc : cache_derived (keysCache demo_km))
    by apply initializeSecretKeysCache_derived, cache_derived_empty.
  split; [| split].
  - refine (proj1 (proj2 (proj1 (proj2 (proj2
              (Sign_outcomes demo_km (mkSignRequest (Some pk2) [x2a]) Hc))) pk2 _ _) sk2 _)).
    + reflexivity.
    + reflexivity.
    + vm_compute. reflexivity.
  - refine (proj1 (proj1 (proj2
              (Sign_outcomes demo_km (mkSignRequest (Some (pk2 ++ [x00])) [x2a]) Hc))
              (pk2 ++ [x00]) _)).
    reflexivity.
  - refine (proj1 (proj2 (proj2 (proj2
              (Sign_outcomes demo_km (mkSignRequest (Some []) [x2a]) Hc)))) _ _).
    + intros sk Hsk. simpl in Hsk. discriminate.
    + reflexivity.
Defined.

(** C9 on the loaded cache, on the empty wallet and on a cache that is
    behind the wallet. *)
Lemma FetchValidatingPublicKeys_paths_witness :
  FetchValidatingPublicKeys demo_km = Ok (map_range (keysCache demo_km)).*1 /\
  FetchValidatingPublicKeys fresh_km = Ok [] /\
  FetchValidatingPublicKeys (mkKeymanager alpha_beta demo_cfg ∅)
  = stored_pubkeys alpha_beta ["alpha"; "beta"].
Proof.
  split; [| split].
  - refine (proj1 (proj1 (FetchValidatingPublicKeys_paths demo_km ["alpha"; "beta"] _) _)).
    + vm_compute. reflexivity.
    + vm_compute. reflexivity.
  - vm_compute. reflexivity.
  - refine (proj1 (proj2 (FetchValidatingPublicKeys_paths
                            (mkKeymanager alpha_beta demo_cfg ∅) ["alpha"; "beta"] _)) _).
    + reflexivity.
    + vm_compute. discriminate.
Defined.

(** C10 on the initialization of the two accounts in two shards. *)
Lemma cache_key_is_derived_public_key_witness :
  let dr := mkKeymanager alpha_beta demo_cfg ∅ in
  size (keysCache (initializeSecretKeysCache 1 dr).1) = 1 /\
  cache_derived (keysCache (initializeSecretKeysCache 1 dr).1).
Proof.
  intros dr. split; [vm_compute; reflexivity |].
  refine (proj1 (cache_key_is_derived_public_key 1 dr _)).
  apply cache_derived_empty.
Defined.

End Examples.

(** ** The further properties on the concrete instance *)

Section FurtherExamples.
Import Demo.

Lemma demo_creation_succeeds :
  demo_creation = (Some (Ok "account-8001"), demo_creation.2).
Proof. vm_compute. reflexivity. Qed.

Lemma demo_keys_differ :
  NoDup ((fun sk : bytes => ToBytes48 (PublicKey_Marshal sk)) <$> [sk1; sk2]).
Proof. apply (bool_decide_unpack _). vm_compute. exact I. Qed.

(** X3 on the creation of an account in the empty wallet. *)
Lemma CreateAccount_success_effects_witness :
  dirs (final_wallet empty_wallet demo_creation.2) = ["account-8001"] /\
  passwordFiles (final_wallet empty_wallet demo_creation.2)
  = <["account-8001.pass" := "pw"]> ∅ /\
  (files (final_wallet empty_wallet demo_creation.2)).*1.*2
  = ["keystore-1600000000.json"; "deposit_data.ssz"].
Proof.
  destruct (CreateAccount_success_effects 1 demo_host fresh_km sk1 sk2 "pw" "account-8001"
              demo_creation.2 demo_creation_succeeds)
    as (_ & _ & _ & Hdirs & Hpasswords & encoded & depositData & encodedDepositData
        & _ & Hdeposit & Hssz & Hfiles).
  split; [exact Hdirs |]. split; [exact Hpasswords |].
  vm_compute in Hdeposit. injection Hdeposit as <-.
  vm_compute in Hssz. injection Hssz as <-.
  change empty_wallet with (wallet fresh_km). rewrite Hfiles. reflexivity.
Defined.

(** X4 on a wallet that refuses the keystore file. *)
Lemma CreateAccount_failure_writes_no_keystore_witness :
  let run := CreateAccount 1 demo_host (mkKeymanager no_keystore_wallet demo_cfg ∅)
               sk1 sk2 "pw" in
  length run.2 = 2 /\
  forall step n, step ∈ run.2 -> has_keystore step.2 n = false.
Proof.
  intros run. split; [vm_compute; reflexivity |].
  refine (CreateAccount_failure_writes_no_keystore 1 demo_host
            (mkKeymanager no_keystore_wallet demo_cfg ∅) sk1 sk2 "pw" run.1 run.2 _ _).
  - vm_compute. reflexivity.
  - intros accountName. vm_compute. discriminate.
Defined.

(** X5 on the account created in the empty wallet. *)
Lemma created_account_reads_back_witness :
  let dr' := mkKeymanager (final_wallet empty_wallet demo_creation.2) demo_cfg ∅ in
  PublicKeyForAccount dr' "account-8001" = Ok (cache_key sk1) /\
  checkPasswordForAccount dr' "account-8001" "pw" = Ok tt /\
  unlockAccount (wallet dr') "account-8001" = Ok sk1.
Proof.
  intros dr'.
  refine (proj2 (created_account_reads_back 1 demo_host fresh_km sk1 sk2 "pw" "account-8001"
                   demo_creation.2 (mkDemoCrypto "pw" sk1 "aes-128-ctr") "5f0c-uuid"
                   demo_creation_succeeds _ _ _ _ _ _ _)).
  - reflexivity.
  - reflexivity.
  - intros encoded Hm. vm_compute in Hm. injection Hm as <-. vm_compute. reflexivity.
  - reflexivity.
  - vm_compute. reflexivity.
  - vm_compute. reflexivity.
  - reflexivity.
Defined.

(** X6 on the account [alpha]. *)
Lemma unlocked_account_passes_password_check_witness :
  exists password, checkPasswordForAccount demo_km "alpha" password = Ok tt.
Proof.
  destruct (unlocked_account_passes_password_check demo_km "alpha" sk1)
    as (password & _ & _ & _ & _ & _ & _ & Hcheck).
  - vm_compute. reflexivity.
  - exists password. exact Hcheck.
Defined.

(** X7 on the loaded cache of the two accounts. *)
Lemma FetchValidatingPublicKeys_one_key_per_account_witness :
  length (map_range (keysCache demo_km)).*1 = 2 /\
  Forall (fun key : bytes => length key = 48) (map_range (keysCache demo_km)).*1.
Proof.
  refine (FetchValidatingPublicKeys_one_key_per_account demo_km ["alpha"; "beta"]
            (map_range (keysCache demo_km)).*1 _ _ _).
  - apply initializeSecretKeysCache_derived, cache_derived_empty.
  - vm_compute. reflexivity.
  - vm_compute. reflexivity.
Defined.

Lemma two_accounts_unlock :
  Forall2 (fun name sk => unlockAccount alpha_beta name = Ok sk) ["alpha"; "beta"] [sk1; sk2].
Proof. repeat constructor; vm_compute; reflexivity. Qed.

(** X9 on the two accounts with shards of one account. *)
Lemma sharded_initialization_witness :
  exists k,
    NewKeymanager 1 alpha_beta demo_cfg = Ok k /\
    size (keysCache k) = 1 /\
    Sign k (mkSignRequest (Some (cache_key sk2)) [])
    = Err "no signing key found in keys cache".
Proof.
  destruct (sharded_initialization_loads_first_shard 1 alpha_beta demo_cfg
              ["alpha"; "beta"] [sk1; sk2] eq_refl two_accounts_unlock demo_keys_differ)
    as (k & Hk & Hsize & _ & Hlater).
  - simpl. lia.
  - exists k. split; [exact Hk |]. split; [exact Hsize |].
    apply Hlater. simpl. by left.
Defined.

(** X10 on the wallet in which [beta] has a wrong password artifact. *)
Lemma NewKeymanager_fails_at_first_locked_account_witness :
  NewKeymanager 2 locked_wallet demo_cfg
  = Err ("could not initialize keys cache: "
         +:+ "could not decrypt signing key for account beta: invalid checksum").
Proof.
  refine (NewKeymanager_fails_at_first_locked_account locked_wallet demo_cfg
            ["alpha"] [sk1] "beta" [] _ eq_refl _ _).
  - repeat constructor.
  - vm_compute. reflexivity.
Defined.

(** X11 on the two accounts listed in the two orders. *)
Lemma single_shard_order_witness :
  exists k k',
    NewKeymanager 2 alpha_beta demo_cfg = Ok k /\
    NewKeymanager 2 beta_alpha demo_cfg = Ok k' /\
    keysCache k = keysCache k'.
Proof.
  refine (single_shard_initialization_order_independent alpha_beta beta_alpha demo_cfg
            ["alpha"; "beta"] ["beta"; "alpha"] key_of_name eq_refl eq_refl _ _ _).
  - apply perm_swap.
  - intros name Hin.
    apply elem_of_cons in Hin as [-> | Hin]; [split; vm_compute; reflexivity |].
    apply elem_of_cons in Hin as [-> | Hin]; [split; vm_compute; reflexivity |].
    by apply not_elem_of_nil in Hin.
  - apply (bool_decide_unpack _). vm_compute. exact I.
Defined.

(** X13 on one record that the first password decrypts. *)
Lemma prompted_import_of_accepted_records_witness :
  let out := ImportKeystores demo_host fresh_km at_prompt [record1]
               (mkConsole [Ok "shared-pw"] []) in
  out.1.1 = Ok tt /\ out.2 = mkConsole [] ["Enter the password for your imported accounts"].
Proof.
  intros out. unfold out, at_prompt.
  rewrite (prompted_import_of_accepted_records_stores_no_keys demo_host fresh_km [record1]
             (mkConsole [Ok "shared-pw"] [])
             (mkConsole [] ["Enter the password for your imported accounts"]) "shared-pw").
  - vm_compute. split; reflexivity.
  - reflexivity.
  - repeat constructor.
  - intros i. reflexivity.
Defined.

(** X14 on a record recovered at the second answer. *)
Lemma askUntilPasswordConfirms_success_witness :
  exists rejected password,
    [Ok "guess"; Ok "own-pw"; Ok "later"] = rejected ++ Ok password :: [Ok "later"] /\
    Decrypt (Crypto record2) password = Ok (bytes_of_string (hex_encode sk2)).
Proof.
  destruct (askUntilPasswordConfirms_success record2 (Pubkey record2)
              (mkConsole [Ok "guess"; Ok "own-pw"; Ok "later"] [])
              (mkConsole [Ok "later"]
                 [prompt_for (Pubkey record2); prompt_for (Pubkey record2)])
              (bytes_of_string (hex_encode sk2)))
    as (rejected & password & Hscript & _ & Hd & _).
  - vm_compute. reflexivity.
  - exists rejected, password. split; [exact Hscript | exact Hd].
Defined.

(** X15 on a second creation with the same key. *)
Lemma CreateAccount_does_not_reuse_name_witness :
  CreateAccount 7 demo_host
    (mkKeymanager (final_wallet empty_wallet demo_creation.2) demo_cfg ∅) sk1 sk2 "other"
  = (None, []).
Proof.
  refine (CreateAccount_does_not_reuse_name 1 7 demo_host demo_host fresh_km sk1 sk2 sk1 sk2
            "pw" "other" "account-8001" demo_creation.2 demo_creation_succeeds _).
  vm_compute. reflexivity.
Defined.

(** X16 on the import with a password file of [record1], read back. *)
Lemma shared_password_import_roundtrip_witness :
  exists w',
    ImportKeystores demo_host fresh_km with_file [record1] (mkConsole [] [])
    = (Ok tt, w', mkConsole [] []) /\
    read_container w' "wallet-pw" = Ok (mkAccountStore [sk1] [pk1]).
Proof.
  destruct (shared_password_import_roundtrip demo_host fresh_km "/tmp/password.txt"
              (bytes_of_string "shared-pw") [record1] [(sk1, pk1)] (mkConsole [] [])
              "5f0c-uuid" demo_store_bytes demo_container_bytes
              (mkDemoCrypto "wallet-pw" demo_store_bytes "aes-128-ctr"))
    as (w' & Himport & Hread & _);
    [reflexivity | vm_compute; reflexivity | reflexivity | vm_compute; reflexivity
    | reflexivity | vm_compute; reflexivity | reflexivity | vm_compute; reflexivity
    | vm_compute; reflexivity | vm_compute; reflexivity |].
  exists w'. split; [exact Himport | exact Hread].
Defined.

End FurtherExamples.
